(** * Transactions of package [common]: classification, viewing and signing

    A shallow embedding of [common/transaction.go]: the data model
    ([Input], [Output], [Transaction], [SignedTransaction]), the classifier
    [TransactionType], the viewer [ViewGhostKey], the per-input signers
    [SignUTXO], [SignInput], [SignRaw], the aggregate signer [AggregateSign]
    and the constructors [NewTransactionV5], [AddInput], [AddOutputWithType].

    Go values are modelled as follows.
    - [int], [uint], [uint8] are [Z]; the conversions [uint16(x)] that can
      truncate are written out as [x mod 2^16].  Lengths are
      [Z.of_nat (length l)].
    - [[]byte], [crypto.Hash], [crypto.Key], [crypto.Signature] are
      [list byte]; a slice or pointer that the code tests against [nil] is
      an [option].
    - [map[string]int] and [map[uint16]*crypto.Signature] are [gmap].
    - A method with a pointer receiver is a computation in the monad
      [M S A := S -> Res A * S]: it returns normally ([Ok]), returns a
      non-nil [error] ([Err]) or panics ([Panic]), and yields the receiver
      as the call left it.
    - The packages the file imports ([crypto], [edwards25519], [sha512],
      the payload hash of [AsVersioned]) and the interface
      [UTXOKeysReader] are type classes.
    - The elements of [[]*Input], [[]*Output], [[]*Address] and
      [[]*crypto.Key] are taken to be non-nil, and lengths to stay below
      the range of [int]. *)

From Stdlib Require Import ZArith List Strings.Byte String Sorted Lia.
From stdpp Require Import gmap strings list fin_maps sorting pretty.

Local Open Scope Z_scope.

(** ** Constants *)

Definition TxVersionHashSignature : Z := 0x05.

Definition OutputTypeScript : Z := 0x00.
Definition OutputTypeWithdrawalSubmit : Z := 0xa1.
Definition OutputTypeNodePledge : Z := 0xa3.
Definition OutputTypeNodeAccept : Z := 0xa4.
Definition outputTypeNodeResign : Z := 0xa5.
Definition OutputTypeNodeRemove : Z := 0xa6.
Definition OutputTypeWithdrawalClaim : Z := 0xa9.
Definition OutputTypeNodeCancel : Z := 0xaa.
Definition OutputTypeCustodianUpdateNodes : Z := 0xb1.
Definition OutputTypeCustodianSlashNodes : Z := 0xb2.

Definition TransactionTypeScript : Z := 0x00.
Definition TransactionTypeMint : Z := 0x01.
Definition TransactionTypeDeposit : Z := 0x02.
Definition TransactionTypeWithdrawalSubmit : Z := 0x03.
Definition TransactionTypeWithdrawalClaim : Z := 0x05.
Definition TransactionTypeNodePledge : Z := 0x06.
Definition TransactionTypeNodeAccept : Z := 0x07.
Definition transactionTypeNodeResign : Z := 0x08.
Definition TransactionTypeNodeRemove : Z := 0x09.
Definition TransactionTypeNodeCancel : Z := 0x12.
Definition TransactionTypeCustodianUpdateNodes : Z := 0x13.
Definition TransactionTypeCustodianSlashNodes : Z := 0x14.
Definition TransactionTypeUnknown : Z := 0xff.

(** ** Bytes

    [crypto.Hash] and [crypto.Key] are arrays of 32 bytes and
    [crypto.Signature] one of 64; their declarations are in package
    [crypto]. *)

Definition Hash := list byte.
Definition Key := list byte.
Definition Signature := list byte.
Definition Script := list byte.

Definition byte_of_Z (z : Z) : byte :=
  match Byte.of_N (Z.to_N (z mod 256)) with
  | Some b => b
  | None => x00
  end.

(** [binary.BigEndian.AppendUint16(b, v)]: [b] followed by the high and the
    low byte of [v]. *)
Definition AppendUint16 (b : list byte) (v : Z) : list byte :=
  b ++ [byte_of_Z (v / 256); byte_of_Z v].

(** Go's [uint16(x)] on an [int]. *)
Definition uint16 (x : Z) : Z := x mod 65536.

(** Go's builtin [copy(dst, src)], as the new contents of [dst]. *)
Definition copy (dst src : list byte) : list byte :=
  take (length dst) src ++ drop (length src) dst.

Definition len {A} (l : list A) : Z := Z.of_nat (length l).

(** ** Types declared elsewhere in the package *)

Class ExternTypes := {
  DepositData : Type;
  MintData : Type;
  WithdrawalData : Type;
  Integer : Type;
}.

(** ** Outcomes of a call *)

Inductive panic :=
| IndexOutOfRange                (* runtime error: index out of range *)
| PanicString (s : string).      (* panic(k.String()) *)

(** Modelled from the spec: the declaration of [Address] is not in the
    source file; these are the four keys the specification lists, of which
    the file reads all. *)
Record Address := {
  PublicSpendKey : Key;
  PublicViewKey : Key;
  PrivateSpendKey : Key;
  PrivateViewKey : Key;
}.

(** One constructor for each [fmt.Errorf] of the file, with the arguments
    of its format string, and one for each error handed on from a callee. *)
Inductive error :=
| ErrInvalidKey (acc : Address)            (* "invalid key for the input %s" *)
| ErrInvalidInputIndex (index n : Z)       (* "invalid input index %d/%d" *)
| ErrInputNotFound (h : Hash) (index : Z)  (* "input not found %s:%d" *)
| ErrInvalidInputsCount (n : Z)            (* "invalid inputs count %d" *)
| ErrInvalidInputFormat                    (* "invalid input format" *)
| ErrInvalidSignersOrder (prev m : Z)      (* "invalid signers order %d %d" *)
| ErrReader (e : string)                   (* err of reader.ReadUTXOKeys *)
| ErrInvalidPoint                          (* err of Point.SetBytes *)
| ErrInvalidScalar.                        (* err of Scalar.SetUniformBytes *)

Inductive Res (A : Type) :=
| Ok (a : A)
| Err (e : error)
| Panic (p : panic).
Arguments Ok {A} a.
Arguments Err {A} e.
Arguments Panic {A} p.

Definition bindR {A B} (r : Res A) (k : A -> Res B) : Res B :=
  match r with
  | Ok a => k a
  | Err e => Err e
  | Panic p => Panic p
  end.

(** [l[i]] for an [int] index. *)
Definition at_index {A} (l : list A) (i : Z) : Res A :=
  if (i <? 0) || (len l <=? i) then Panic IndexOutOfRange
  else match l !! Z.to_nat i with
       | Some a => Ok a
       | None => Panic IndexOutOfRange
       end.

Definition M (S A : Type) : Type := S -> Res A * S.

Definition ret {S A} (a : A) : M S A := fun s => (Ok a, s).
Definition bind {S A B} (c : M S A) (k : A -> M S B) : M S B :=
  fun s => match c s with
           | (Ok a, s') => k a s'
           | (Err e, s') => (Err e, s')
           | (Panic p, s') => (Panic p, s')
           end.
Definition get {S} : M S S := fun s => (Ok s, s).
Definition modify {S} (f : S -> S) : M S unit := fun s => (Ok tt, f s).
Definition throw {S A} (e : error) : M S A := fun s => (Err e, s).
Definition lift {S A} (r : Res A) : M S A := fun s => (r, s).

Notation "x <- c ;; k" := (bind c (fun x => k))
  (at level 100, c at next level, right associativity).
Notation "x <~ c ;; k" := (bindR c (fun x => k))
  (at level 100, c at next level, right associativity).

(** ** Data model *)

Section Model.
Context `{ET : ExternTypes}.

Record Input := {
  Hash_ : Hash;
  Index : Z;
  Genesis : option (list byte);
  Deposit : option DepositData;
  Mint : option MintData;
}.

Record Output := {
  Type_ : Z;
  Amount : Integer;
  Keys : list Key;
  Mask : Key;
  Script_ : Script;
  Withdrawal : option WithdrawalData;
}.

Record Transaction := {
  Version : Z;
  Asset : Hash;
  Inputs : list Input;
  Outputs : list Output;
  References : list Hash;
  Extra : list byte;
}.

Record AggregatedSignature_ := {
  Signers : list Z;
  Signature_ : list byte;
}.

Record SignedTransaction := {
  Transaction_ : Transaction;
  AggregatedSignature : option AggregatedSignature_;
  SignaturesMap : list (gmap Z Signature);
}.

(** Modelled from the spec: the declarations of [UTXO] and [UTXOKeys] are
    not in the source file; these are the fields the specification gives
    them, which are the ones the file reads ([utxo.Keys], [utxo.Mask],
    [utxo.Index]). *)
Record UTXO := {
  UTXO_Keys : list Key;
  UTXO_Mask : Key;
  UTXO_Index : Z;
}.

Record UTXOKeys := {
  UK_Mask : Key;
  UK_Keys : list Key;
}.

(** ** Collaborators *)

(** The interface [UTXOKeysReader]: [ReadUTXOKeys(hash, index)] returns
    a pointer to [UTXOKeys] and an [error]; [inl e] is a non-nil error,
    [inr None] the nil pointer. *)
Class UTXOKeysReader (R : Type) :=
  ReadUTXOKeys : R -> Hash -> Z -> string + option UTXOKeys.

(** Packages [crypto], [edwards25519] and [crypto/sha512], and the payload
    hash [signed.AsVersioned().PayloadHash()]. *)
Class Crypto := {
  KeyString : Key -> string;                        (* k.String() *)
  Public : Key -> Key;                              (* k.Public() *)
  Sign : Key -> Hash -> Signature;                  (* k.Sign(msg) *)
  NewKeyFromSeed : list byte -> Key;
  Blake3Hash : list byte -> Hash;
  DeriveGhostPublicKey : Key -> Key -> Key -> Z -> Key;
  DeriveGhostPrivateKey : Key -> Key -> Key -> Z -> Key;
  ViewGhostOutputKey : Key -> Key -> Key -> Z -> Key;
  PayloadHash : SignedTransaction -> Hash;
  Point : Type;
  NewIdentityPoint : Point;
  PointSetBytes : list byte -> option Point;        (* None: err != nil *)
  PointAdd : Point -> Point -> Point;
  PointBytes : Point -> list byte;
  Scalar : Type;
  NewScalar : Scalar;
  SetUniformBytes : list byte -> option Scalar;
  SetCanonicalBytes : list byte -> option Scalar;
  MultiplyAdd : Scalar -> Scalar -> Scalar -> Scalar;
  ScalarAdd : Scalar -> Scalar -> Scalar;
  ScalarBytes : Scalar -> list byte;
  Sha512 : list byte -> list byte;
}.

Context `{CR : Crypto}.

(** ** TransactionType *)

Definition input_type (i : Input) : option Z :=
  match Mint i with
  | Some _ => Some TransactionTypeMint
  | None =>
      match Deposit i with
      | Some _ => Some TransactionTypeDeposit
      | None =>
          match Genesis i with
          | Some _ => Some TransactionTypeUnknown
          | None => None
          end
      end
  end.

(** The first loop: [Some t] when it returns [t], [None] when it ends. *)
Fixpoint scan_input_types (ins : list Input) : option Z :=
  match ins with
  | [] => None
  | i :: rest =>
      match input_type i with
      | Some t => Some t
      | None => scan_input_types rest
      end
  end.

(** The [switch] on [out.Type]: [Some t] when a case returns [t]. *)
Definition output_case (t : Z) : option Z :=
  if t =? OutputTypeWithdrawalSubmit then Some TransactionTypeWithdrawalSubmit
  else if t =? OutputTypeWithdrawalClaim then Some TransactionTypeWithdrawalClaim
  else if t =? OutputTypeNodePledge then Some TransactionTypeNodePledge
  else if t =? OutputTypeNodeCancel then Some TransactionTypeNodeCancel
  else if t =? OutputTypeNodeAccept then Some TransactionTypeNodeAccept
  else if t =? OutputTypeNodeRemove then Some TransactionTypeNodeRemove
  else if t =? OutputTypeCustodianUpdateNodes then Some TransactionTypeCustodianUpdateNodes
  else if t =? OutputTypeCustodianSlashNodes then Some TransactionTypeCustodianSlashNodes
  else None.

(** The second loop with its local [isScript], and the final test. *)
Fixpoint scan_output_types (outs : list Output) (isScript : bool) : Z :=
  match outs with
  | [] => if isScript then TransactionTypeScript else TransactionTypeUnknown
  | out :: rest =>
      match output_case (Type_ out) with
      | Some t => t
      | None => scan_output_types rest (isScript && (Type_ out =? OutputTypeScript))
      end
  end.

Definition TransactionType (tx : SignedTransaction) : Z :=
  match scan_input_types (Inputs (Transaction_ tx)) with
  | Some t => t
  | None => scan_output_types (Outputs (Transaction_ tx)) true
  end.

(** ** ViewGhostKey *)

(** The inner loop [for _, k := range o.Keys], appending to [out.Keys]. *)
Fixpoint view_keys (a : Key) (o : Output) (i : Z) (ks : list Key)
    (outKeys : list Key) : list Key :=
  match ks with
  | [] => outKeys
  | k :: rest =>
      view_keys a o i rest (outKeys ++ [ViewGhostOutputKey k a (Mask o) i])
  end.

(** The loop [for i, o := range tx.Outputs], appending to [outputs]. *)
Fixpoint view_loop (a : Key) (i : Z) (outs : list Output)
    (outputs : list Output) : list Output :=
  match outs with
  | [] => outputs
  | o :: rest =>
      if negb (Type_ o =? OutputTypeScript) then view_loop a (i + 1) rest outputs
      else
        let out := {| Type_ := Type_ o; Amount := Amount o;
                      Script_ := Script_ o; Mask := Mask o;
                      Keys := view_keys a o i (Keys o) [];
                      Withdrawal := None |} in
        view_loop a (i + 1) rest (outputs ++ [out])
  end.

Definition ViewGhostKey (a : Key) : M Transaction (list Output) :=
  tx <- get ;;
  ret (view_loop a 0 (Outputs tx) []).

(** ** SignUTXO, SignInput, SignRaw *)

(** [for i, k := range keys { keysFilter[k.String()] = conv(i) }]; [conv]
    is [uint16] in [SignUTXO] and [SignInput], the identity in
    [AggregateSign]. *)
Fixpoint keys_filter (conv : Z -> Z) (i : Z) (keys : list Key)
    (keysFilter : gmap string Z) : gmap string Z :=
  match keys with
  | [] => keysFilter
  | k :: rest => keys_filter conv (i + 1) rest (<[KeyString k := conv i]> keysFilter)
  end.

(** [for _, acc := range accounts] of [SignUTXO] and [SignInput]; [idx] is
    the last argument of [DeriveGhostPrivateKey]. *)
Fixpoint sign_accounts (mask : Key) (idx : Z) (keysFilter : gmap string Z)
    (msg : Hash) (accounts : list Address) (sigs : gmap Z Signature)
    : Res (gmap Z Signature) :=
  match accounts with
  | [] => Ok sigs
  | acc :: rest =>
      let priv := DeriveGhostPrivateKey mask (PrivateViewKey acc)
                    (PrivateSpendKey acc) idx in
      match keysFilter !! KeyString (Public priv) with
      | None => Err (ErrInvalidKey acc)
      | Some i =>
          sign_accounts mask idx keysFilter msg rest (<[i := Sign priv msg]> sigs)
      end
  end.

(** [signed.SignaturesMap = append(signed.SignaturesMap, sigs)]. *)
Definition append_sigs (sigs : gmap Z Signature) (signed : SignedTransaction)
    : SignedTransaction :=
  {| Transaction_ := Transaction_ signed;
     AggregatedSignature := AggregatedSignature signed;
     SignaturesMap := SignaturesMap signed ++ [sigs] |}.

(** [signed.AggregatedSignature = as]. *)
Definition set_aggregated (as_ : AggregatedSignature_) (signed : SignedTransaction)
    : SignedTransaction :=
  {| Transaction_ := Transaction_ signed;
     AggregatedSignature := Some as_;
     SignaturesMap := SignaturesMap signed |}.

Definition SignUTXO (utxo : UTXO) (accounts : list Address)
    : M SignedTransaction unit :=
  signed <- get ;;
  let msg := PayloadHash signed in
  if len accounts =? 0 then ret tt
  else
    let keysFilter := keys_filter uint16 0 (UTXO_Keys utxo) ∅ in
    sigs <- lift (sign_accounts (UTXO_Mask utxo) (UTXO_Index utxo)
                    keysFilter msg accounts ∅) ;;
    modify (append_sigs sigs).

Definition SignRaw (key : Key) : M SignedTransaction unit :=
  signed <- get ;;
  let msg := PayloadHash signed in
  let inputs := Inputs (Transaction_ signed) in
  if negb (len inputs =? 1) then throw (ErrInvalidInputsCount (len inputs))
  else
    in_ <- lift (at_index inputs 0) ;;
    match Deposit in_, Mint in_ with
    | None, None => throw ErrInvalidInputFormat
    | _, _ =>
        let sig := Sign key msg in
        let sigs : gmap Z Signature := {[ 0 := sig ]} in
        modify (append_sigs sigs)
    end.

Definition SignInput {R} `{UTXOKeysReader R} (reader : R) (index : Z)
    (accounts : list Address) : M SignedTransaction unit :=
  signed <- get ;;
  let inputs := Inputs (Transaction_ signed) in
  if len accounts =? 0 then ret tt
  else if index >=? len inputs then
    throw (ErrInvalidInputIndex index (len inputs))
  else
    in_ <- lift (at_index inputs index) ;;
    match Deposit in_, Mint in_ with
    | None, None =>
        match ReadUTXOKeys reader (Hash_ in_) (Index in_) with
        | inl e => throw (ErrReader e)
        | inr None => throw (ErrInputNotFound (Hash_ in_) (Index in_))
        | inr (Some utxo) =>
            let keysFilter := keys_filter uint16 0 (UK_Keys utxo) ∅ in
            let msg := PayloadHash signed in
            sigs <- lift (sign_accounts (UK_Mask utxo) (Index in_)
                            keysFilter msg accounts ∅) ;;
            modify (append_sigs sigs)
        end
    | _, _ =>
        acc0 <- lift (at_index accounts 0) ;;
        SignRaw (PrivateSpendKey acc0)
    end.

(** ** AggregateSign *)

(** The locals of the first loop. *)
Record scan := {
  signers : list Z;
  privKeys : list Key;
  pubKeys : list Key;
}.

(** [for _, acc := range accounts[index]]. *)
Fixpoint scan_accounts (utxo : UTXOKeys) (in_ : Input)
    (keysFilter : gmap string Z) (accs : list Address) (st : scan) : Res scan :=
  match accs with
  | [] => Ok st
  | acc :: rest =>
      let priv := DeriveGhostPrivateKey (UK_Mask utxo) (PrivateViewKey acc)
                    (PrivateSpendKey acc) (Index in_) in
      match keysFilter !! KeyString (Public priv) with
      | None => Err (ErrInvalidKey acc)
      | Some i =>
          let m := len (pubKeys st) + i in
          match last (signers st) with
          | Some prev =>
              if m <=? prev then Err (ErrInvalidSignersOrder prev m)
              else scan_accounts utxo in_ keysFilter rest
                     {| signers := signers st ++ [m];
                        privKeys := privKeys st ++ [priv];
                        pubKeys := pubKeys st |}
          | None =>
              scan_accounts utxo in_ keysFilter rest
                {| signers := signers st ++ [m];
                   privKeys := privKeys st ++ [priv];
                   pubKeys := pubKeys st |}
          end
      end
  end.

(** [for index, in := range signed.Inputs]. *)
Fixpoint scan_inputs {R} `{UTXOKeysReader R} (reader : R)
    (accounts : list (list Address)) (index : nat) (ins : list Input)
    (st : scan) : Res scan :=
  match ins with
  | [] => Ok st
  | in_ :: rest =>
      match ReadUTXOKeys reader (Hash_ in_) (Index in_) with
      | inl e => Err (ErrReader e)
      | inr None => Err (ErrInputNotFound (Hash_ in_) (Index in_))
      | inr (Some utxo) =>
          let keysFilter := keys_filter (fun i => i) 0 (UK_Keys utxo) ∅ in
          match accounts !! index with
          | None => Panic IndexOutOfRange
          | Some accs =>
              st' <~ scan_accounts utxo in_ keysFilter accs st ;;
              scan_inputs reader accounts (S index) rest
                {| signers := signers st';
                   privKeys := privKeys st';
                   pubKeys := pubKeys st' ++ UK_Keys utxo |}
          end
      end
  end.

(** The locals of the second loop. *)
Record nonces := {
  randoms : list Key;
  sumP : Point;
  sumA : Point;
}.

(** [for _, m := range signers]. *)
Fixpoint nonce_loop (seed : list byte) (pubs : list Key) (ms : list Z)
    (st : nonces) : Res nonces :=
  match ms with
  | [] => Ok st
  | m :: rest =>
      let buf := AppendUint16 seed (uint16 m) in
      let s := Blake3Hash buf in
      let r := NewKeyFromSeed (s ++ s) in
      let R_ := Public r in
      match PointSetBytes R_ with
      | None => Err ErrInvalidPoint
      | Some p =>
          pub <~ at_index pubs m ;;
          match PointSetBytes pub with
          | None => Err ErrInvalidPoint
          | Some a =>
              nonce_loop seed pubs rest
                {| randoms := randoms st ++ [r];
                   sumP := PointAdd (sumP st) p;
                   sumA := PointAdd (sumA st) a |}
          end
      end
  end.

(** [for i, k := range privKeys], accumulating [S]. *)
Fixpoint sum_loop (x : Scalar) (rands : list Key) (i : Z) (ks : list Key)
    (S_ : Scalar) : Res Scalar :=
  match ks with
  | [] => Ok S_
  | k :: rest =>
      match SetCanonicalBytes k with
      | None => Panic (PanicString (KeyString k))
      | Some y =>
          ri <~ at_index rands i ;;
          match SetCanonicalBytes ri with
          | None => Panic (PanicString (KeyString ri))
          | Some z =>
              let s := MultiplyAdd x y z in
              sum_loop x rands (i + 1) rest (ScalarAdd S_ s)
          end
      end
  end.

(** The locals as declared: [var signers []int], ..., and the identity
    points [P] and [A]. *)
Definition scan0 : scan := {| signers := []; privKeys := []; pubKeys := [] |}.
Definition nonces0 : nonces :=
  {| randoms := []; sumP := NewIdentityPoint; sumA := NewIdentityPoint |}.

(** [var sig [64]byte; copy(sig[:32], P); copy(sig[32:], S)]. *)
Definition signature_bytes (P S_ : list byte) : list byte :=
  let zero := replicate 64%nat x00 in
  copy (take 32%nat zero) P ++ copy (drop 32%nat zero) S_.

(** Everything [AggregateSign] computes before its one assignment to
    [signed.AggregatedSignature]. *)
Definition aggregate {R} `{UTXOKeysReader R} (reader : R)
    (accounts : list (list Address)) (seed : list byte)
    (signed : SignedTransaction) : Res AggregatedSignature_ :=
  sc <~ scan_inputs reader accounts 0%nat (Inputs (Transaction_ signed)) scan0 ;;
  nc <~ nonce_loop seed (pubKeys sc) (signers sc) nonces0 ;;
  let msg := PayloadHash signed in
  let hramDigest :=
    Sha512 (PointBytes (sumP nc) ++ PointBytes (sumA nc) ++ msg) in
  match SetUniformBytes hramDigest with
  | None => Err ErrInvalidScalar
  | Some x =>
      S_ <~ sum_loop x (randoms nc) 0 (privKeys sc) NewScalar ;;
      Ok {| Signers := signers sc;
            Signature_ := signature_bytes (PointBytes (sumP nc)) (ScalarBytes S_) |}
  end.

Definition AggregateSign {R} `{UTXOKeysReader R} (reader : R)
    (accounts : list (list Address)) (seed : list byte)
    : M SignedTransaction unit :=
  signed <- get ;;
  as_ <- lift (aggregate reader accounts seed signed) ;;
  modify (set_aggregated as_).

(** ** Constructors *)

Definition NewTransactionV5 (asset : Hash) : Transaction :=
  {| Version := TxVersionHashSignature; Asset := asset; Inputs := [];
     Outputs := []; References := []; Extra := [] |}.

Definition AddInput (hash : Hash) (index : Z) : M Transaction unit :=
  let in_ := {| Hash_ := hash; Index := index; Genesis := None;
                Deposit := None; Mint := None |} in
  modify (fun tx =>
    {| Version := Version tx; Asset := Asset tx;
       Inputs := Inputs tx ++ [in_]; Outputs := Outputs tx;
       References := References tx; Extra := Extra tx |}).

(** [for _, a := range accounts], appending to [out.Keys]. *)
Fixpoint ghost_keys (r : Key) (i : Z) (accounts : list Address)
    (outKeys : list Key) : list Key :=
  match accounts with
  | [] => outKeys
  | a :: rest =>
      ghost_keys r i rest
        (outKeys ++ [DeriveGhostPublicKey r (PublicViewKey a) (PublicSpendKey a) i])
  end.

Definition AddOutputWithType (ot : Z) (accounts : list Address) (s : Script)
    (amount : Integer) (seed : list byte) : M Transaction unit :=
  tx <- get ;;
  let out :=
    if 0 <? len accounts then
      let r := NewKeyFromSeed seed in
      {| Type_ := ot; Amount := amount; Script_ := s;
         Keys := ghost_keys r (len (Outputs tx)) accounts [];
         Mask := Public r; Withdrawal := None |}
    else
      {| Type_ := ot; Amount := amount; Script_ := s; Keys := [];
         Mask := replicate 32%nat x00; Withdrawal := None |} in
  modify (fun tx =>
    {| Version := Version tx; Asset := Asset tx; Inputs := Inputs tx;
       Outputs := Outputs tx ++ [out];
       References := References tx; Extra := Extra tx |}).

(** Modelled from the spec: the promotion of a [Transaction] to a
    [SignedTransaction] is not in the source file; the composite literal
    [&SignedTransaction{Transaction: *tx}] leaves both signature fields
    at their zero value. *)
Definition promote (tx : Transaction) : SignedTransaction :=
  {| Transaction_ := tx; AggregatedSignature := None; SignaturesMap := [] |}.

(** ** Sequences of calls *)

(** A call of one of the four signing methods, with its arguments. *)
Inductive SignOp (R : Type) :=
| OpSignUTXO (utxo : UTXO) (accounts : list Address)
| OpSignInput (reader : R) (index : Z) (accounts : list Address)
| OpSignRaw (key : Key)
| OpAggregateSign (reader : R) (accounts : list (list Address))
    (seed : list byte).
Arguments OpSignUTXO {R} utxo accounts.
Arguments OpSignInput {R} reader index accounts.
Arguments OpSignRaw {R} key.
Arguments OpAggregateSign {R} reader accounts seed.

Definition run_op {R} `{UTXOKeysReader R} (op : SignOp R)
    : M SignedTransaction unit :=
  match op with
  | OpSignUTXO utxo accounts => SignUTXO utxo accounts
  | OpSignInput reader index accounts => SignInput reader index accounts
  | OpSignRaw key => SignRaw key
  | OpAggregateSign reader accounts seed => AggregateSign reader accounts seed
  end.

(** The receiver after the calls [ops], made one after the other whatever
    each returns. *)
Fixpoint run_ops {R} `{UTXOKeysReader R} (ops : list (SignOp R))
    (signed : SignedTransaction) : SignedTransaction :=
  match ops with
  | [] => signed
  | op :: rest => run_ops rest (snd (run_op op signed))
  end.

Definition is_aggregate {R} (op : SignOp R) : bool :=
  match op with
  | OpAggregateSign _ _ _ => true
  | _ => false
  end.

(** A call of [AddInput] or [AddOutputWithType]. *)
Inductive BuildOp :=
| OpAddInput (hash : Hash) (index : Z)
| OpAddOutputWithType (ot : Z) (accounts : list Address) (s : Script)
    (amount : Integer) (seed : list byte).

Definition run_build (b : BuildOp) : M Transaction unit :=
  match b with
  | OpAddInput hash index => AddInput hash index
  | OpAddOutputWithType ot accounts s amount seed =>
      AddOutputWithType ot accounts s amount seed
  end.

(** [NewTransactionV5(asset)] followed by the calls [bs]. *)
Definition build (asset : Hash) (bs : list BuildOp) : Transaction :=
  fold_left (fun tx b => snd (run_build b tx)) bs (NewTransactionV5 asset).

(** Both signature fields hold something. *)
Definition both_populated (signed : SignedTransaction) : Prop :=
  AggregatedSignature signed <> None /\ SignaturesMap signed <> [].

(** ** The viewer as the specification words it *)

(** The copy of output [o], which stands at position [i]. *)
Definition view_copy (a : Key) (i : Z) (o : Output) : Output :=
  {| Type_ := Type_ o; Amount := Amount o; Script_ := Script_ o;
     Mask := Mask o;
     Keys := map (fun k => ViewGhostOutputKey k a (Mask o) i) (Keys o);
     Withdrawal := None |}.

(** The [Script] outputs among [outs], each with its position [n + k],
    copied in order. *)
Definition view_from (a : Key) (n : nat) (outs : list Output) : list Output :=
  map (fun p => view_copy a (Z.of_nat p.1) p.2)
    (filter (fun p => Type_ p.2 = OutputTypeScript)
       (imap (fun k o => ((n + k)%nat, o)) outs)).

Definition view_outputs (a : Key) (outs : list Output) : list Output :=
  view_from a 0 outs.

(** What a per-input signer may do to the receiver: leave it as it is, or
    append one map to [SignaturesMap] and touch nothing else. *)
Definition appended_one (signed signed' : SignedTransaction) : Prop :=
  exists sigs : gmap Z Signature, signed' = append_sigs sigs signed.

(** How a method leaves the receiver: as it was when it does not return
    [nil]; as it was, too, when [noop] is set; with one more map
    otherwise. *)
Definition appends_on_success (noop : bool) (c : M SignedTransaction unit)
    (signed : SignedTransaction) : Prop :=
  match c signed with
  | (Ok _, signed') =>
      if noop then signed' = signed else appended_one signed signed'
  | (_, signed') => signed' = signed
  end.

(** The signer indices and keys collected so far: as many keys as indices,
    every index below [bound]. *)
Definition collected (bound : Z) (st : scan) : Prop :=
  length (privKeys st) = length (signers st) /\
  Forall (fun m => 0 <= m < bound) (signers st).

End Model.

Arguments OpSignUTXO {R} utxo accounts.
Arguments OpSignInput {R} reader index accounts.
Arguments OpSignRaw {R} key.
Arguments OpAggregateSign {R} reader accounts seed.

(** A reader given by its lookup function. *)
#[global] Instance fun_reader
    : UTXOKeysReader (Hash -> Z -> string + option UTXOKeys) :=
  fun r => r.

(** ** The classifier as the specification words it *)

(** The special output types and the transaction type of each. *)
Definition special_output_types : list (Z * Z) :=
  [ (OutputTypeWithdrawalSubmit, TransactionTypeWithdrawalSubmit);
    (OutputTypeWithdrawalClaim, TransactionTypeWithdrawalClaim);
    (OutputTypeNodePledge, TransactionTypeNodePledge);
    (OutputTypeNodeCancel, TransactionTypeNodeCancel);
    (OutputTypeNodeAccept, TransactionTypeNodeAccept);
    (OutputTypeNodeRemove, TransactionTypeNodeRemove);
    (OutputTypeCustodianUpdateNodes, TransactionTypeCustodianUpdateNodes);
    (OutputTypeCustodianSlashNodes, TransactionTypeCustodianSlashNodes) ].

Fixpoint assoc (t : Z) (table : list (Z * Z)) : option Z :=
  match table with
  | [] => None
  | (k, v) :: rest => if t =? k then Some v else assoc t rest
  end.

Definition special (t : Z) : option Z := assoc t special_output_types.

(** An input that is an ordinary reference: no [Mint], [Deposit] or
    [Genesis]. *)
Definition plain_input `{ET : ExternTypes} (i : Input) : Prop :=
  Mint i = None /\ Deposit i = None /\ Genesis i = None.

(** ** The remaining constructors *)

Section Constructors.
Context {ET : ExternTypes} {CR : Crypto}.

Definition AddScriptOutput (accounts : list Address) (s : Script)
    (amount : Integer) (seed : list byte) : M Transaction unit :=
  AddOutputWithType OutputTypeScript accounts s amount seed.

(** [crypto.ReadRand(seed)] overwrites the 64 bytes of [seed] with the
    bytes [rnd] of the random source. *)
Definition AddRandomScriptOutput (rnd : list byte) (accounts : list Address)
    (s : Script) (amount : Integer) : M Transaction unit :=
  let seed := copy (replicate 64%nat x00) rnd in
  AddScriptOutput accounts s amount seed.

(** *** What the constructors are expected to build *)

(** The tags [TransactionType] can return. *)
Definition transaction_types : list Z :=
  [ TransactionTypeScript; TransactionTypeMint; TransactionTypeDeposit;
    TransactionTypeWithdrawalSubmit; TransactionTypeWithdrawalClaim;
    TransactionTypeNodePledge; TransactionTypeNodeAccept;
    TransactionTypeNodeRemove; TransactionTypeNodeCancel;
    TransactionTypeCustodianUpdateNodes; TransactionTypeCustodianSlashNodes;
    TransactionTypeUnknown ].

(** The input [AddInput(hash, index)] stands for. *)
Definition reference (hash : Hash) (index : Z) : Input :=
  {| Hash_ := hash; Index := index; Genesis := None; Deposit := None;
     Mint := None |}.

(** The output that [AddOutputWithType] is to put at position [pos]: one
    ghost key per account, all derived with [pos]. *)
Definition output_at (pos : Z) (ot : Z) (accounts : list Address) (s : Script)
    (amount : Integer) (seed : list byte) : Output :=
  match accounts with
  | [] =>
      {| Type_ := ot; Amount := amount; Script_ := s; Keys := [];
         Mask := replicate 32%nat x00; Withdrawal := None |}
  | _ :: _ =>
      {| Type_ := ot; Amount := amount; Script_ := s;
         Keys := map (fun a => DeriveGhostPublicKey (NewKeyFromSeed seed)
                                 (PublicViewKey a) (PublicSpendKey a) pos)
                   accounts;
         Mask := Public (NewKeyFromSeed seed); Withdrawal := None |}
  end.

(** The inputs and outputs that the calls [bs] are to add to a transaction
    that has [n] outputs already. *)
Fixpoint inputs_of (bs : list BuildOp) : list Input :=
  match bs with
  | [] => []
  | OpAddInput hash index :: rest => reference hash index :: inputs_of rest
  | OpAddOutputWithType _ _ _ _ _ :: rest => inputs_of rest
  end.

Fixpoint outputs_of (n : nat) (bs : list BuildOp) : list Output :=
  match bs with
  | [] => []
  | OpAddInput _ _ :: rest => outputs_of n rest
  | OpAddOutputWithType ot accounts s amount seed :: rest =>
      output_at (Z.of_nat n) ot accounts s amount seed :: outputs_of (S n) rest
  end.

(** The ghost private key [SignUTXO], [SignInput] and [AggregateSign]
    derive for [acc]. *)
Definition ghost_private (mask : Key) (idx : Z) (acc : Address) : Key :=
  DeriveGhostPrivateKey mask (PrivateViewKey acc) (PrivateSpendKey acc) idx.

(** [acc] has a key among those in [keysFilter]. *)
Definition owns (keysFilter : gmap string Z) (mask : Key) (idx : Z)
    (acc : Address) : Prop :=
  is_Some (keysFilter !! KeyString (Public (ghost_private mask idx acc))).

(** The public keys of an address are those of its private keys. *)
Definition well_formed (acc : Address) : Prop :=
  PublicViewKey acc = Public (PrivateViewKey acc) /\
  PublicSpendKey acc = Public (PrivateSpendKey acc).

(** The keys of all the outputs that [ins] refer to, one input after the
    other: what [AggregateSign] collects in [pubKeys]. *)
Fixpoint all_keys {R} `{UTXOKeysReader R} (reader : R) (ins : list Input)
    : list Key :=
  match ins with
  | [] => []
  | in_ :: rest =>
      match ReadUTXOKeys reader (Hash_ in_) (Index in_) with
      | inr (Some utxo) => UK_Keys utxo ++ all_keys reader rest
      | _ => all_keys reader rest
      end
  end.

(** The ghost private keys of all the accounts given for [ins], the
    accounts of input [n] first. *)
Fixpoint all_privs {R} `{UTXOKeysReader R} (reader : R)
    (accounts : list (list Address)) (n : nat) (ins : list Input) : list Key :=
  match ins with
  | [] => []
  | in_ :: rest =>
      match ReadUTXOKeys reader (Hash_ in_) (Index in_), accounts !! n with
      | inr (Some utxo), Some accs =>
          map (ghost_private (UK_Mask utxo) (Index in_)) accs
          ++ all_privs reader accounts (S n) rest
      | _, _ => all_privs reader accounts (S n) rest
      end
  end.

(** The nonce of signer [m]: the key made from the hash of the seed
    followed by the two bytes of [uint16(m)]. *)
Definition signer_nonce (seed : list byte) (m : Z) : Key :=
  let s := Blake3Hash (AppendUint16 seed (uint16 m)) in
  NewKeyFromSeed (s ++ s).

(** The position, counted from [n], of the last key of [keys] whose string
    is [s]. *)
Fixpoint last_position (s : string) (n : Z) (keys : list Key) : option Z :=
  match keys with
  | [] => None
  | k :: rest =>
      match last_position s (n + 1) rest with
      | Some j => Some j
      | None => if decide (KeyString k = s) then Some n else None
      end
  end.

(** Signer index [m] points, in the list [pubs] of public keys, at a key
    with the string of the public key of [priv]. *)
Definition signs_for (pubs : list Key) (m : Z) (priv : Key) : Prop :=
  0 <= m /\
  exists k, pubs !! Z.to_nat m = Some k /\
            KeyString k = KeyString (Public priv).

(** The sum of the public nonces of the signers [ms], added to [P]; [None]
    when one of them does not decode. *)
Fixpoint commitment (seed : list byte) (ms : list Z) (P : Point)
    : option Point :=
  match ms with
  | [] => Some P
  | m :: rest =>
      match PointSetBytes (Public (signer_nonce seed m)) with
      | Some p => commitment seed rest (PointAdd P p)
      | None => None
      end
  end.

End Constructors.

(** ** Package [clock]

    The package keeps a mock offset [mockDiff] that tests may move and a
    flag [inTest] computed once from [config.BuildVersion].  A call reads
    the system clock at most once; the reading is the argument [now].  The
    state also keeps the arguments of each [logger.Printf].  The mutex is
    left out: the calls are taken one at a time. *)

(** Package [time]: [t.Add(d)] and [t.UnixNano()]. *)
Class TimeLib := {
  Time : Type;
  TimeAdd : Time -> Z -> Time;
  UnixNano : Time -> Z;
}.

(** Go's [int64] and [uint64] arithmetic wraps around. *)
Definition int64 (z : Z) : Z := (z + 2 ^ 63) mod 2 ^ 64 - 2 ^ 63.
Definition uint64 (z : Z) : Z := z mod 2 ^ 64.

(** [strings.Contains(s, substr)]. *)
Definition Contains (s substr : string) : bool :=
  match String.index 0 substr s with
  | Some _ => true
  | None => false
  end.

Section Clock.
Context {TL : TimeLib}.

Record clock := {
  mockDiff : Z;
  printed : list (Z * Time);
}.

(** The package as loaded: [mockDiff = time.Duration(0)]. *)
Definition clock0 : clock := {| mockDiff := 0; printed := [] |}.

Definition inTest (BuildVersion : string) : bool :=
  Contains BuildVersion "BUILD_VERSION".

Definition Reset (BuildVersion : string) : M clock unit :=
  if negb (inTest BuildVersion) then
    lift (Panic (PanicString
                   ("clock reset not allowed in build version " ++ BuildVersion)))
  else
    modify (fun st => {| mockDiff := 0; printed := printed st |}).

Definition MockDiff (BuildVersion : string) (now : Time) (at_ : Z)
    : M clock unit :=
  if negb (inTest BuildVersion) then
    lift (Panic (PanicString
                   ("clock mock not allowed in build version " ++ BuildVersion)))
  else
    modify (fun st =>
      let d := int64 (mockDiff st + at_) in
      {| mockDiff := d; printed := printed st ++ [(at_, TimeAdd now d)] |}).

Definition Now (BuildVersion : string) (now : Time) : M clock Time :=
  if negb (inTest BuildVersion) then ret now
  else
    st <- get ;;
    ret (TimeAdd now (mockDiff st)).

Definition NowUnixNano (BuildVersion : string) (now : Time) : M clock Z :=
  t <- Now BuildVersion now ;;
  ret (uint64 (UnixNano t)).

(** The state after the calls [MockDiff(at)] of [calls], each with its
    clock reading. *)
Definition mock_all (BuildVersion : string) (calls : list (Time * Z))
    (st : clock) : clock :=
  fold_left (fun st c => snd (MockDiff BuildVersion (fst c) (snd c) st))
    calls st.

Definition sum_Z (l : list Z) : Z := fold_right Z.add 0 l.

End Clock.

(** ** The helper [testBuildMintSnapshots] of package [kernel]

    [common.SnapshotWork] is declared elsewhere; these are the fields the
    helper sets.  [crypto.NewHash] is the argument [NewHash].  A slice of
    pointers is a list of options, [None] being [nil]. *)

Record SnapshotWork := {
  SW_Timestamp : Z;
  SW_Hash : Hash;
  SW_Signers : list Hash;
}.

(** [[]byte(fmt.Sprintf("MW%d%d%d", round, timestamp, i))]. *)
Definition work_name (round timestamp : Z) (i : nat) : list byte :=
  list_byte_of_string
    ("MW" +:+ pretty round +:+ pretty timestamp +:+ pretty (Z.of_nat i)).

(** [for i := range snapshots], [i] running over [idxs]. *)
Fixpoint fill_snapshots (NewHash : list byte -> Hash) (signers : list Hash)
    (round timestamp : Z) (idxs : list nat)
    (snapshots : list (option SnapshotWork)) : list (option SnapshotWork) :=
  match idxs with
  | [] => snapshots
  | i :: rest =>
      let hash := work_name round timestamp i in
      let s := {| SW_Timestamp := timestamp; SW_Hash := NewHash hash;
                  SW_Signers := signers |} in
      fill_snapshots NewHash signers round timestamp rest
        (<[i := Some s]> snapshots)
  end.

Definition testBuildMintSnapshots (NewHash : list byte -> Hash)
    (signers : list Hash) (round timestamp : Z)
    : list (option SnapshotWork) :=
  let snapshots := replicate 100%nat None in
  fill_snapshots NewHash signers round timestamp
    (seq 0 (length snapshots)) snapshots.

(** ** Sample values

    A small instance of the collaborators, to run the definitions on:
    a key's public key is the key itself and the ghost private key of an
    account is its private spend key, so an account signs for the outputs
    that list its spend key. *)

Definition sampleT : ExternTypes :=
  {| DepositData := unit; MintData := unit; WithdrawalData := unit;
     Integer := Z |}.

Definition sampleC : @Crypto sampleT :=
  {| KeyString := string_of_list_byte;
     Public := fun k => k;
     Sign := fun k msg => k ++ msg;
     NewKeyFromSeed := fun seed => take 32%nat seed;
     Blake3Hash := fun b => take 32%nat (b ++ replicate 32%nat x00);
     DeriveGhostPublicKey := fun r v s i => s;
     DeriveGhostPrivateKey := fun mask v s i => s;
     ViewGhostOutputKey := fun k a mask i => k ++ a ++ mask ++ [byte_of_Z i];
     PayloadHash := fun signed => Asset (Transaction_ signed);
     Point := Z;
     NewIdentityPoint := 0;
     PointSetBytes := fun b => Some (len b);
     PointAdd := Z.add;
     PointBytes := fun p => replicate 32%nat (byte_of_Z p);
     Scalar := Z;
     NewScalar := 0;
     SetUniformBytes := fun b => if len b =? 64 then Some 1 else None;
     SetCanonicalBytes := fun b => Some (len b);
     MultiplyAdd := fun x y z => x * y + z;
     ScalarAdd := Z.add;
     ScalarBytes := fun s => replicate 32%nat (byte_of_Z s);
     Sha512 := fun b => replicate 64%nat x00 |}.

Definition plain (h : Hash) (i : Z) : @Input sampleT :=
  {| Hash_ := h; Index := i; Genesis := None; Deposit := None; Mint := None |}.
Definition mint_input : @Input sampleT :=
  @Build_Input sampleT [] 0 None None (Some tt).
Definition deposit_input : @Input sampleT :=
  @Build_Input sampleT [] 0 None (Some tt) None.
Definition genesis_input : @Input sampleT :=
  @Build_Input sampleT [] 0 (Some []) None None.

Definition output_of_type (t : Z) (keys : list Key) : @Output sampleT :=
  @Build_Output sampleT t 1 keys [x07] [] None.

Definition tx_of (ins : list (@Input sampleT)) (outs : list (@Output sampleT))
    : @Transaction sampleT :=
  {| Version := TxVersionHashSignature; Asset := [x61]; Inputs := ins;
     Outputs := outs; References := []; Extra := [] |}.

Definition signed_of (ins : list (@Input sampleT))
    (outs : list (@Output sampleT)) : @SignedTransaction sampleT :=
  promote (tx_of ins outs).

Definition account (k : Key) : Address :=
  {| PublicSpendKey := k; PublicViewKey := [x76]; PrivateSpendKey := k;
     PrivateViewKey := [x76] |}.

(** A reader that knows the outputs of two transactions: [[x01]] with the
    keys [[x0a]], [[x0b]] and [[x02]] with the key [[x0c]]; it finds
    nothing under [[x03]] and fails on every other hash. *)
Definition sample_reader : Hash -> Z -> string + option UTXOKeys :=
  fun h _ =>
    match Byte.to_N <$> h with
    | [1%N] => inr (Some {| UK_Mask := [x07]; UK_Keys := [[x0a]; [x0b]] |})
    | [2%N] => inr (Some {| UK_Mask := [x07]; UK_Keys := [[x0c]] |})
    | [3%N] => inr None
    | _ => inl "read failed"%string
    end.

Definition sample_utxo : UTXO :=
  {| UTXO_Keys := [[x0a]; [x0b]]; UTXO_Mask := [x07]; UTXO_Index := 0 |}.

Definition in_order : list (list Address) :=
  [[account [x0a]; account [x0b]]; [account [x0c]]].
Definition out_of_order : list (list Address) :=
  [[account [x0b]; account [x0a]]; [account [x0c]]].
Definition two_inputs : @SignedTransaction sampleT :=
  signed_of [plain [x01] 0; plain [x02] 0] [].

(** A reader that answers as [sample_reader] does for [[x01]] and [[x02]]
    and finds nothing elsewhere. *)
Definition other_reader : Hash -> Z -> string + option UTXOKeys :=
  fun h _ =>
    match Byte.to_N <$> h with
    | [1%N] => inr (Some {| UK_Mask := [x07]; UK_Keys := [[x0a]; [x0b]] |})
    | [2%N] => inr (Some {| UK_Mask := [x07]; UK_Keys := [[x0c]] |})
    | _ => inr None
    end.

Definition reader_fun : Type := Hash -> Z -> string + option UTXOKeys.

(** [NewTransactionV5] and one [AddInput], then promoted. *)
Definition one_input_built : @SignedTransaction sampleT :=
  promote (build (CR := sampleC) [x61] [OpAddInput [x01] 0]).

(** The only input signed by the owner of its first key, then an aggregate
    signature by the same account. *)
Definition sign_then_aggregate : list (SignOp reader_fun) :=
  [ OpSignInput sample_reader 0 [account [x0a]];
    OpAggregateSign sample_reader [[account [x0a]]] [x73] ].

(** The same input signed twice, by the owners of its two keys. *)
Definition sign_twice : list (SignOp reader_fun) :=
  [ OpSignInput sample_reader 0 [account [x0a]];
    OpSignInput sample_reader 0 [account [x0b]] ].

Definition three_outputs : @Transaction sampleT :=
  tx_of []
    [ output_of_type OutputTypeScript [[x0a]];
      output_of_type OutputTypeWithdrawalSubmit [[x0b]];
      output_of_type OutputTypeScript [[x0c]; [x0d]] ].

(** A second instance, in which the ghost keys obey the laws of the real
    ones: the ghost public and private key of an account for index [i] are
    both the byte [i] before its spend key, and viewing takes that byte
    off again. *)
Definition lawfulC : @Crypto sampleT :=
  {| KeyString := string_of_list_byte;
     Public := fun k => k;
     Sign := fun k msg => k ++ msg;
     NewKeyFromSeed := fun seed => take 32%nat seed;
     Blake3Hash := fun b => take 32%nat (b ++ replicate 32%nat x00);
     DeriveGhostPublicKey := fun r v s i => byte_of_Z i :: s;
     DeriveGhostPrivateKey := fun mask v s i => byte_of_Z i :: s;
     ViewGhostOutputKey := fun k a mask i => tail k;
     PayloadHash := fun signed => Asset (Transaction_ signed);
     Point := Z;
     NewIdentityPoint := 0;
     PointSetBytes := fun b => Some (len b);
     PointAdd := Z.add;
     PointBytes := fun p => replicate 32%nat (byte_of_Z p);
     Scalar := Z;
     NewScalar := 0;
     SetUniformBytes := fun b => if len b =? 64 then Some 1 else None;
     SetCanonicalBytes := fun b => Some (len b);
     MultiplyAdd := fun x y z => x * y + z;
     ScalarAdd := Z.add;
     ScalarBytes := fun s => replicate 32%nat (byte_of_Z s);
     Sha512 := fun b => replicate 64%nat x00 |}.

(** Times as nanoseconds since the epoch. *)
Definition nanoseconds : TimeLib :=
  {| Time := Z; TimeAdd := Z.add; UnixNano := fun t => t |}.

(** The transaction [two_inputs] with another asset, hence another
    payload hash. *)
Definition two_inputs_other : @SignedTransaction sampleT :=
  promote
    {| Version := TxVersionHashSignature; Asset := [x62];
       Inputs := [plain [x01] 0; plain [x02] 0]; Outputs := [];
       References := []; Extra := [] |}.

Definition recipients_ab : list Address := [account [x0a]; account [x0b]].

(** The output that [AddOutputWithType] adds first for [recipients_ab]
    with the seed [[x73]], under [lawfulC]. *)
Definition first_output : @Output sampleT :=
  @Build_Output sampleT OutputTypeScript 5 [[x00; x0a]; [x00; x0b]] [x73] []
    None.

(** A reader that returns the keys and mask of [first_output]. *)
Definition first_output_reader : Hash -> Z -> string + option UTXOKeys :=
  fun _ _ => inr (Some {| UK_Mask := [x73]; UK_Keys := [[x00; x0a]; [x00; x0b]] |}).

(** One input and one [Script] output for [recipients_ab]. *)
Definition input_and_script_output : list (@BuildOp sampleT) :=
  [ @OpAddInput sampleT [x01] 0;
    @OpAddOutputWithType sampleT OutputTypeScript recipients_ab [] 5 [x73] ].

(** * The classifier *)

Section Classifier.
Context {ET : ExternTypes}.
Implicit Types (tx : SignedTransaction) (i : Input) (o : Output).

Lemma scan_input_types_plain (pre rest : list Input) :
  Forall plain_input pre ->
  scan_input_types (pre ++ rest) = scan_input_types rest.
Proof.
  induction 1 as [|j pre (Hm & Hd & Hg) _ IH]; simpl; [reflexivity|].
  unfold input_type. rewrite Hm, Hd, Hg. exact IH.
Qed.

Lemma scan_input_types_all_plain (ins : list Input) :
  Forall plain_input ins -> scan_input_types ins = None.
Proof.
  intros H. rewrite <- (app_nil_r ins). now rewrite scan_input_types_plain.
Qed.

(** C1, as the code has it: the first input that is not an ordinary
    reference decides.  If it has [Mint] the type is [Mint]; if it has no
    [Mint] but has [Deposit] the type is [Deposit]; later inputs and the
    outputs play no part. *)
Theorem TransactionType_first_special_input tx (pre post : list Input) i :
  Inputs (Transaction_ tx) = pre ++ i :: post ->
  Forall plain_input pre ->
  (Mint i <> None -> TransactionType tx = TransactionTypeMint) /\
  (Mint i = None -> Deposit i <> None ->
   TransactionType tx = TransactionTypeDeposit).
Proof.
  intros Hin Hpre. unfold TransactionType.
  rewrite Hin, scan_input_types_plain by assumption. simpl.
  unfold input_type. split.
  - intros Hm. destruct (Mint i); [reflexivity | congruence].
  - intros Hm Hd. rewrite Hm. destruct (Deposit i); [reflexivity | congruence].
Qed.

Lemma output_case_special (t : Z) : output_case t = special t.
Proof. reflexivity. Qed.

Lemma special_not_resign (t v : Z) :
  special t = Some v -> v <> transactionTypeNodeResign.
Proof.
  unfold special, special_output_types, assoc.
  repeat (destruct (t =? _); [intros [= <-]; discriminate|]).
  discriminate.
Qed.

Lemma scan_output_types_not_special (pre rest : list Output) (b : bool) :
  Forall (fun o => special (Type_ o) = None) pre ->
  scan_output_types (pre ++ rest) b =
  scan_output_types rest
    (b && forallb (fun o => Type_ o =? OutputTypeScript) pre).
Proof.
  intros H. revert b.
  induction H as [|o pre Ho _ IH]; intros b; simpl.
  - now rewrite andb_true_r.
  - rewrite output_case_special, Ho, IH. now rewrite andb_assoc.
Qed.

Lemma scan_output_types_not_resign (outs : list Output) (b : bool) :
  scan_output_types outs b <> transactionTypeNodeResign.
Proof.
  revert b. induction outs as [|o outs IH]; intros b; simpl.
  - destruct b; discriminate.
  - rewrite output_case_special.
    destruct (special (Type_ o)) eqn:E; [|apply IH].
    eapply special_not_resign, E.
Qed.

(** C4: with only ordinary inputs, the first output of a special type
    decides by the table; with no special output the type is [Script] when
    every output (possibly none) is a [Script] one and [Unknown] otherwise;
    the result is never the reserved [NodeResign] tag. *)
Theorem TransactionType_by_outputs tx :
  Forall plain_input (Inputs (Transaction_ tx)) ->
  (forall (pre post : list Output) o t,
     Outputs (Transaction_ tx) = pre ++ o :: post ->
     Forall (fun o' => special (Type_ o') = None) pre ->
     special (Type_ o) = Some t ->
     TransactionType tx = t) /\
  (Forall (fun o => special (Type_ o) = None) (Outputs (Transaction_ tx)) ->
   Forall (fun o => Type_ o = OutputTypeScript) (Outputs (Transaction_ tx)) ->
   TransactionType tx = TransactionTypeScript) /\
  (Forall (fun o => special (Type_ o) = None) (Outputs (Transaction_ tx)) ->
   Exists (fun o => Type_ o <> OutputTypeScript) (Outputs (Transaction_ tx)) ->
   TransactionType tx = TransactionTypeUnknown) /\
  TransactionType tx <> transactionTypeNodeResign.
Proof.
  intros Hin. unfold TransactionType.
  rewrite (scan_input_types_all_plain _ Hin).
  repeat split.
  - intros pre post o t Hout Hpre Ho.
    rewrite Hout, scan_output_types_not_special by assumption.
    simpl. now rewrite output_case_special, Ho.
  - intros Hns Hsc.
    rewrite <- (app_nil_r (Outputs _)), scan_output_types_not_special by assumption.
    simpl. rewrite (proj2 (forallb_forall _ _)); [reflexivity|].
    intros o Ho. rewrite Forall_forall in Hsc.
    apply Z.eqb_eq, Hsc. now apply list_elem_of_In.
  - intros Hns Hex.
    rewrite <- (app_nil_r (Outputs _)), scan_output_types_not_special by assumption.
    simpl.
    destruct (forallb _ _) eqn:E; [|reflexivity].
    exfalso. rewrite forallb_forall in E.
    apply Exists_exists in Hex as (o & Ho & Hne).
    apply Hne, Z.eqb_eq, E. now apply list_elem_of_In.
  - apply scan_output_types_not_resign.
Qed.

End Classifier.

Lemma TransactionType_first_special_input_witness :
  TransactionType (signed_of [plain [x01] 0; mint_input; deposit_input] [])
    = TransactionTypeMint /\
  TransactionType (signed_of [plain [x01] 0; deposit_input; mint_input] [])
    = TransactionTypeDeposit.
Proof.
  split.
  - apply (TransactionType_first_special_input
             (signed_of [plain [x01] 0; mint_input; deposit_input] [])
             [plain [x01] 0] [deposit_input] mint_input).
    + reflexivity.
    + repeat constructor.
    + simpl. discriminate.
  - apply (TransactionType_first_special_input
             (signed_of [plain [x01] 0; deposit_input; mint_input] [])
             [plain [x01] 0] [mint_input] deposit_input).
    + reflexivity.
    + repeat constructor.
    + reflexivity.
    + simpl. discriminate.
Defined.

(** C1 as stated fails: a [Mint] input that comes after a [Deposit] input
    does not make the transaction a [Mint] one, and a [Deposit] input that
    comes after a [Genesis] input does not make it a [Deposit] one. *)
Lemma TransactionType_mint_not_first :
  (In mint_input (Inputs (Transaction_ (signed_of [deposit_input; mint_input] [])))
   /\ TransactionType (signed_of [deposit_input; mint_input] [])
      = TransactionTypeDeposit
   /\ TransactionType (signed_of [deposit_input; mint_input] [])
      <> TransactionTypeMint)
  /\
  (In deposit_input (Inputs (Transaction_ (signed_of [genesis_input; deposit_input] [])))
   /\ Forall (fun i => Mint i = None)
        (Inputs (Transaction_ (signed_of [genesis_input; deposit_input] [])))
   /\ TransactionType (signed_of [genesis_input; deposit_input] [])
      = TransactionTypeUnknown
   /\ TransactionType (signed_of [genesis_input; deposit_input] [])
      <> TransactionTypeDeposit).
Proof.
  split.
  - split; [right; left; reflexivity|]. split; [reflexivity|]. discriminate.
  - split; [right; left; reflexivity|]. split; [repeat constructor|].
    split; [reflexivity|]. discriminate.
Qed.

Lemma TransactionType_by_outputs_witness :
  TransactionType
    (signed_of [plain [x01] 0]
       [output_of_type OutputTypeScript [];
        output_of_type OutputTypeNodeCancel [];
        output_of_type OutputTypeWithdrawalSubmit []])
    = TransactionTypeNodeCancel /\
  TransactionType (signed_of [plain [x01] 0] []) = TransactionTypeScript /\
  TransactionType
    (signed_of [plain [x01] 0]
       [output_of_type OutputTypeScript []; output_of_type 0x77 []])
    = TransactionTypeUnknown.
Proof.
  assert (Hp : Forall plain_input [plain [x01] 0]) by (repeat constructor).
  split; [|split].
  - refine (proj1 (TransactionType_by_outputs (signed_of _ _) Hp)
              [output_of_type OutputTypeScript []]
              [output_of_type OutputTypeWithdrawalSubmit []]
              (output_of_type OutputTypeNodeCancel []) _ _ _ _).
    + reflexivity.
    + repeat constructor.
    + reflexivity.
  - refine (proj1 (proj2 (TransactionType_by_outputs (signed_of _ _) Hp)) _ _);
      constructor.
  - refine (proj1 (proj2 (proj2 (TransactionType_by_outputs (signed_of _ _) Hp)))
              _ _).
    + repeat constructor.
    + right. left. discriminate.
Defined.

(** * The per-input signers *)

Section Signers.
Context {ET : ExternTypes} {CR : Crypto} {R : Type} {RD : UTXOKeysReader R}.
Implicit Types (signed : SignedTransaction) (accounts : list Address).

Lemma len_nil_iff {A} (l : list A) : (len l =? 0) = true <-> l = [].
Proof.
  unfold len. rewrite Z.eqb_eq. destruct l; simpl; split; intros; try lia;
    congruence.
Qed.

Lemma at_index_0 {A} (a : A) (l : list A) : at_index (a :: l) 0 = Ok a.
Proof. unfold at_index, len. simpl length. rewrite Nat2Z.inj_succ.
  replace (0 <? 0) with false by reflexivity.
  replace (Z.succ (Z.of_nat (length l)) <=? 0) with false
    by (symmetry; apply Z.leb_gt; lia).
  reflexivity.
Qed.

Lemma at_index_negative {A} (l : list A) (i : Z) :
  i < 0 -> at_index l i = Panic IndexOutOfRange.
Proof.
  intros Hi. unfold at_index.
  now replace (i <? 0) with true by (symmetry; apply Z.ltb_lt; lia).
Qed.

(** C5: [SignRaw] returns the inputs-count error unless there is exactly
    one input, the input-format error when that input is neither a deposit
    nor a mint, and otherwise appends the one map that sends 0 to the
    signature of the payload hash under [key]. *)
Theorem SignRaw_spec (key : Key) signed :
  (length (Inputs (Transaction_ signed)) <> 1%nat ->
   SignRaw key signed =
   (Err (ErrInvalidInputsCount (len (Inputs (Transaction_ signed)))), signed))
  /\
  (forall in_ : Input,
     Inputs (Transaction_ signed) = [in_] ->
     Deposit in_ = None -> Mint in_ = None ->
     SignRaw key signed = (Err ErrInvalidInputFormat, signed))
  /\
  (forall in_ : Input,
     Inputs (Transaction_ signed) = [in_] ->
     Deposit in_ <> None \/ Mint in_ <> None ->
     SignRaw key signed =
     (Ok tt,
      {| Transaction_ := Transaction_ signed;
         AggregatedSignature := AggregatedSignature signed;
         SignaturesMap :=
           SignaturesMap signed ++ [ {[ 0 := Sign key (PayloadHash signed) ]} ] |})).
Proof.
  unfold SignRaw, bind, get, throw, lift, modify. simpl.
  split; [|split].
  - intros Hn.
    replace (len (Inputs (Transaction_ signed)) =? 1) with false; [reflexivity|].
    symmetry. apply Z.eqb_neq. unfold len. lia.
  - intros in_ -> Hd Hm. simpl. now rewrite Hd, Hm.
  - intros in_ -> H. simpl.
    destruct (Deposit in_), (Mint in_); try reflexivity.
    destruct H; congruence.
Qed.

(** [SignInput] with an index at or beyond the number of inputs. *)
Lemma SignInput_index_too_large (reader : R) (index : Z) accounts signed :
  accounts <> [] ->
  len (Inputs (Transaction_ signed)) <= index ->
  SignInput reader index accounts signed =
  (Err (ErrInvalidInputIndex index (len (Inputs (Transaction_ signed)))), signed).
Proof.
  intros Ha Hi. unfold SignInput, bind, get, throw. simpl.
  destruct (len accounts =? 0) eqn:E; [now apply len_nil_iff in E|].
  now replace (index >=? len (Inputs (Transaction_ signed))) with true
    by (symmetry; apply Z.geb_le; lia).
Qed.

(** [SignInput] with a negative index: the bounds check lets it through
    and the indexing panics. *)
Lemma SignInput_index_negative (reader : R) (index : Z) accounts signed :
  accounts <> [] ->
  index < 0 ->
  SignInput reader index accounts signed = (Panic IndexOutOfRange, signed).
Proof.
  intros Ha Hi. unfold SignInput, bind, get, throw, lift. simpl.
  destruct (len accounts =? 0) eqn:E; [now apply len_nil_iff in E|].
  replace (index >=? len (Inputs (Transaction_ signed))) with false.
  - now rewrite at_index_negative.
  - symmetry. rewrite Z.geb_leb. apply Z.leb_gt. unfold len. lia.
Qed.

Lemma SignRaw_appends (key : Key) signed :
  appends_on_success false (SignRaw key) signed.
Proof.
  unfold appends_on_success, SignRaw, bind, get, throw, lift, modify. simpl.
  destruct (negb _); [reflexivity|].
  destruct (at_index _ _) as [in_| |]; try reflexivity.
  destruct (Deposit in_), (Mint in_); try reflexivity; now eexists.
Qed.

Lemma lift_sign_appends (r : Res (gmap Z Signature)) signed :
  appends_on_success false (sigs <- lift r ;; modify (append_sigs sigs)) signed.
Proof.
  unfold appends_on_success, bind, lift, modify.
  destruct r; try reflexivity. now eexists.
Qed.

Lemma SignUTXO_appends (utxo : UTXO) accounts signed :
  appends_on_success (bool_decide (accounts = [])) (SignUTXO utxo accounts) signed.
Proof.
  unfold SignUTXO. destruct accounts as [|acc accounts]; [reflexivity|].
  replace (bool_decide (acc :: accounts = [])) with false by reflexivity.
  replace (len (acc :: accounts) =? 0) with false
    by (symmetry; apply Z.eqb_neq; unfold len; simpl; lia).
  apply (lift_sign_appends _ signed).
Qed.

Lemma SignInput_appends (reader : R) (index : Z) accounts signed :
  appends_on_success (bool_decide (accounts = []))
    (SignInput reader index accounts) signed.
Proof.
  unfold SignInput. destruct accounts as [|acc accounts]; [reflexivity|].
  replace (bool_decide (acc :: accounts = [])) with false by reflexivity.
  replace (len (acc :: accounts) =? 0) with false
    by (symmetry; apply Z.eqb_neq; unfold len; simpl; lia).
  unfold appends_on_success, bind at 1, get.
  destruct (index >=? _); [reflexivity|].
  unfold bind at 1, lift at 1.
  destruct (at_index _ index) as [in_| |]; try reflexivity.
  destruct (Deposit in_), (Mint in_);
    try (rewrite at_index_0; apply SignRaw_appends).
  destruct (ReadUTXOKeys _ _ _) as [e|[utxo'|]]; try reflexivity.
  apply (lift_sign_appends _ signed).
Qed.

(** C7, as the code has it: each of [SignUTXO], [SignInput] and [SignRaw]
    leaves the receiver untouched when it returns an error (or panics) and,
    when it returns [nil], has appended exactly one map to [SignaturesMap]
    and changed nothing else -- except that [SignUTXO] and [SignInput] with
    no accounts return [nil] without appending anything. *)
Theorem signers_append_one_or_nothing (utxo : UTXO) (reader : R) (index : Z)
    (key : Key) accounts signed :
  appends_on_success (bool_decide (accounts = [])) (SignUTXO utxo accounts) signed
  /\
  appends_on_success (bool_decide (accounts = []))
    (SignInput reader index accounts) signed
  /\
  appends_on_success false (SignRaw key) signed.
Proof.
  split; [apply SignUTXO_appends|].
  split; [apply SignInput_appends | apply SignRaw_appends].
Qed.

(** *** Sequences of signing calls *)

Lemma appends_keeps_aggregated (noop : bool) (c : M SignedTransaction unit)
    signed :
  appends_on_success noop c signed ->
  AggregatedSignature (snd (c signed)) = AggregatedSignature signed.
Proof.
  unfold appends_on_success. destruct (c signed) as [[[]| |] signed']; simpl;
    try (now intros ->).
  destruct noop; [now intros -> | now intros [sigs ->]].
Qed.

Lemma AggregateSign_keeps_sigs (reader : R) (accounts : list (list Address))
    (seed : list byte) signed :
  SignaturesMap (snd (AggregateSign reader accounts seed signed)) =
  SignaturesMap signed.
Proof.
  unfold AggregateSign, bind, get, lift, modify.
  now destruct (aggregate _ _ _ _).
Qed.

Lemma run_ops_per_input (ops : list (SignOp R)) signed :
  Forall (fun op => is_aggregate op = false) ops ->
  AggregatedSignature (run_ops ops signed) = AggregatedSignature signed.
Proof.
  intros H. revert signed.
  induction H as [|op ops Hop _ IH]; intros signed; [reflexivity|].
  simpl. rewrite IH.
  destruct op as [utxo accs|reader index accs|key|]; simpl; [| | |discriminate].
  - eapply appends_keeps_aggregated, SignUTXO_appends.
  - eapply appends_keeps_aggregated, SignInput_appends.
  - eapply appends_keeps_aggregated, SignRaw_appends.
Qed.

Lemma run_ops_aggregate (ops : list (SignOp R)) signed :
  Forall (fun op => is_aggregate op = true) ops ->
  SignaturesMap (run_ops ops signed) = SignaturesMap signed.
Proof.
  intros H. revert signed.
  induction H as [|op ops Hop _ IH]; intros signed; [reflexivity|].
  simpl. rewrite IH.
  destruct op; simpl; try discriminate. apply AggregateSign_keeps_sigs.
Qed.

(** C9, as the code has it: on a transaction made by [NewTransactionV5],
    [AddInput] and [AddOutputWithType], a sequence of signing calls that
    keeps to one strategy -- only [SignUTXO], [SignInput] and [SignRaw], or
    only [AggregateSign] -- never leaves both [AggregatedSignature] and
    [SignaturesMap] populated. *)
Theorem one_strategy_not_both_populated (asset : Hash) (bs : list BuildOp)
    (ops : list (SignOp R)) :
  Forall (fun op => is_aggregate op = false) ops \/
  Forall (fun op => is_aggregate op = true) ops ->
  ~ both_populated (run_ops ops (promote (build asset bs))).
Proof.
  intros [H|H] [Ha Hs].
  - apply Ha. now rewrite run_ops_per_input.
  - apply Hs. now rewrite run_ops_aggregate.
Qed.

End Signers.

Lemma SignRaw_spec_witness :
  SignRaw (CR := sampleC) [x0a] (signed_of [deposit_input; deposit_input] [])
    = (Err (ErrInvalidInputsCount 2), signed_of [deposit_input; deposit_input] [])
  /\
  SignRaw (CR := sampleC) [x0a] (signed_of [plain [x01] 0] [])
    = (Err ErrInvalidInputFormat, signed_of [plain [x01] 0] [])
  /\
  SignRaw (CR := sampleC) [x0a] (signed_of [mint_input] [])
    = (Ok tt,
       {| Transaction_ := tx_of [mint_input] [];
          AggregatedSignature := None;
          SignaturesMap := [ {[ 0 := [x0a; x61] ]} ] |}).
Proof.
  split; [|split].
  - apply (proj1 (SignRaw_spec (CR := sampleC) [x0a]
                    (signed_of [deposit_input; deposit_input] []))).
    simpl. lia.
  - apply (proj1 (proj2 (SignRaw_spec (CR := sampleC) [x0a]
                           (signed_of [plain [x01] 0] []))) (plain [x01] 0));
      reflexivity.
  - apply (proj2 (proj2 (SignRaw_spec (CR := sampleC) [x0a]
                           (signed_of [mint_input] []))) mint_input).
    + reflexivity.
    + right. simpl. discriminate.
Defined.

(** C6 at the index -1: the call panics where the claim has it return the
    input-index error. *)
Theorem SignInput_negative_index_panics :
  SignInput (CR := sampleC) sample_reader (-1) [account [x0a]]
    (signed_of [plain [x01] 0] [])
  = (Panic IndexOutOfRange, signed_of [plain [x01] 0] []).
Proof. apply SignInput_index_negative; [discriminate | lia]. Qed.

(** C7 as stated fails: with no accounts [SignUTXO] and [SignInput] return
    [nil] and append nothing. *)
Lemma signers_no_accounts_append_nothing :
  (fst (SignUTXO (CR := sampleC) sample_utxo [] (signed_of [plain [x01] 0] []))
     = Ok tt
   /\ ~ appended_one (signed_of [plain [x01] 0] [])
          (snd (SignUTXO (CR := sampleC) sample_utxo []
                  (signed_of [plain [x01] 0] []))))
  /\
  (fst (SignInput (CR := sampleC) sample_reader 0 []
          (signed_of [plain [x01] 0] []))
     = Ok tt
   /\ ~ appended_one (signed_of [plain [x01] 0] [])
          (snd (SignInput (CR := sampleC) sample_reader 0 []
                  (signed_of [plain [x01] 0] [])))).
Proof.
  split; (split; [reflexivity|]); intros [sigs H]; simpl in H;
    apply (f_equal (fun s => length (SignaturesMap s))) in H; simpl in H;
    discriminate.
Qed.

(** * The viewer *)

Section Viewer.
Context {ET : ExternTypes} {CR : Crypto}.
Implicit Types (a : Key) (o : Output) (outs : list Output).

Lemma view_keys_map a o (i : Z) (ks outKeys : list Key) :
  view_keys a o i ks outKeys =
  outKeys ++ map (fun k => ViewGhostOutputKey k a (Mask o) i) ks.
Proof.
  revert outKeys. induction ks as [|k ks IH]; intros outKeys; simpl.
  - now rewrite app_nil_r.
  - now rewrite IH, <- app_assoc.
Qed.

Lemma view_from_shift a (n : nat) o outs :
  view_from a n (o :: outs) =
  (if decide (Type_ o = OutputTypeScript)
   then [view_copy a (Z.of_nat n) o] else []) ++ view_from a (S n) outs.
Proof.
  unfold view_from. rewrite imap_cons, Nat.add_0_r.
  rewrite (imap_ext _ (fun k o0 => ((S n + k)%nat, o0)))
    by (intros; simpl; f_equal; lia).
  rewrite filter_cons. simpl.
  destruct (decide (Type_ o = OutputTypeScript)); reflexivity.
Qed.

Lemma view_loop_from a (n : nat) outs (outputs : list Output) :
  view_loop a (Z.of_nat n) outs outputs = outputs ++ view_from a n outs.
Proof.
  revert n outputs. induction outs as [|o outs IH]; intros n outputs.
  - simpl. now rewrite app_nil_r.
  - rewrite view_from_shift. simpl.
    replace (Z.of_nat n + 1) with (Z.of_nat (S n)) by lia.
    destruct (decide (Type_ o = OutputTypeScript)) as [E|E].
    + replace (Type_ o =? OutputTypeScript) with true
        by (symmetry; now apply Z.eqb_eq).
      simpl. rewrite IH, <- app_assoc. simpl.
      unfold view_copy. now rewrite view_keys_map.
    + replace (Type_ o =? OutputTypeScript) with false
        by (symmetry; now apply Z.eqb_neq).
      simpl. now rewrite IH.
Qed.

Lemma view_from_fields a (n : nat) outs :
  map (fun o => (Type_ o, Amount o, Script_ o, Mask o)) (view_from a n outs) =
  map (fun o => (Type_ o, Amount o, Script_ o, Mask o))
    (filter (fun o => Type_ o = OutputTypeScript) outs).
Proof.
  revert n. induction outs as [|o outs IH]; intros n; [reflexivity|].
  rewrite view_from_shift, filter_cons.
  destruct (decide (Type_ o = OutputTypeScript)); simpl; now rewrite IH.
Qed.

Lemma view_from_lookup a (n : nat) outs (j : nat) (o' : Output) :
  view_from a n outs !! j = Some o' ->
  exists (k : nat) o,
    outs !! k = Some o /\ Type_ o = OutputTypeScript /\
    o' = view_copy a (Z.of_nat (n + k)) o.
Proof.
  revert n j. induction outs as [|o outs IH]; intros n j; [discriminate|].
  rewrite view_from_shift.
  destruct (decide (Type_ o = OutputTypeScript)) as [E|E]; simpl.
  - destruct j as [|j]; simpl.
    + intros [= <-]. exists 0%nat, o. now rewrite Nat.add_0_r.
    + intros H. apply IH in H as (k & o0 & Hk & Ht & ->).
      exists (S k), o0. repeat split; try assumption. f_equal. lia.
  - intros H. apply IH in H as (k & o0 & Hk & Ht & ->).
    exists (S k), o0. repeat split; try assumption. f_equal. lia.
Qed.

(** C8: [ViewGhostKey] returns the [Script] outputs in their order, each a
    copy with the same [Type], [Amount], [Script] and [Mask] and with every
    key [k] replaced by [ViewGhostOutputKey(k, a, Mask, i)], [i] being the
    position of the output among all outputs; other outputs are left out,
    and the transaction is as it was. *)
Theorem ViewGhostKey_spec a (tx : Transaction) :
  ViewGhostKey a tx = (Ok (view_outputs a (Outputs tx)), tx)
  /\
  map (fun o => (Type_ o, Amount o, Script_ o, Mask o))
    (view_outputs a (Outputs tx)) =
  map (fun o => (Type_ o, Amount o, Script_ o, Mask o))
    (filter (fun o => Type_ o = OutputTypeScript) (Outputs tx))
  /\
  (forall (j : nat) (o' : Output),
     view_outputs a (Outputs tx) !! j = Some o' ->
     exists (i : nat) o,
       Outputs tx !! i = Some o /\ Type_ o = OutputTypeScript /\
       Type_ o' = Type_ o /\ Amount o' = Amount o /\
       Script_ o' = Script_ o /\ Mask o' = Mask o /\
       Keys o' =
       map (fun k => ViewGhostOutputKey k a (Mask o) (Z.of_nat i)) (Keys o)).
Proof.
  split; [|split].
  - unfold ViewGhostKey, bind, get, ret, view_outputs.
    f_equal. f_equal. exact (view_loop_from a 0 (Outputs tx) []).
  - apply view_from_fields.
  - intros j o' H. apply view_from_lookup in H as (k & o & Hk & Ht & ->).
    exists k, o. now repeat split.
Qed.

End Viewer.

(** * The aggregate signer *)

Section Aggregate.
Context {ET : ExternTypes} {CR : Crypto} {R : Type} {RD : UTXOKeysReader R}.
Implicit Types (signed : SignedTransaction) (st : scan)
  (utxo : UTXOKeys) (accounts : list (list Address)) (reader : R).

(** *** The loops over a concatenation *)

Lemma scan_accounts_app utxo (in_ : Input) (kf : gmap string Z)
    (accs1 accs2 : list Address) st :
  scan_accounts utxo in_ kf (accs1 ++ accs2) st =
  (st' <~ scan_accounts utxo in_ kf accs1 st ;;
   scan_accounts utxo in_ kf accs2 st').
Proof.
  revert st. induction accs1 as [|acc accs1 IH]; intros st; [reflexivity|].
  simpl. destruct (kf !! _) as [i|]; [|reflexivity].
  destruct (last (signers st)) as [prev|]; [|apply IH].
  destruct (_ <=? prev); [reflexivity | apply IH].
Qed.

Lemma scan_inputs_app reader accounts (n : nat) (pre post : list Input) st :
  scan_inputs reader accounts n (pre ++ post) st =
  (st' <~ scan_inputs reader accounts n pre st ;;
   scan_inputs reader accounts (n + length pre) post st').
Proof.
  revert n st. induction pre as [|in_ pre IH]; intros n st.
  - simpl. now rewrite Nat.add_0_r.
  - simpl. destruct (ReadUTXOKeys _ _ _) as [e|[utxo|]]; try reflexivity.
    destruct (accounts !! n) as [accs|]; [|reflexivity].
    destruct (scan_accounts _ _ _ _ _) as [st'| |]; simpl; try reflexivity.
    rewrite IH. now replace (S n + length pre)%nat with (n + S (length pre))%nat by lia.
Qed.

(** *** The signer indices ascend *)

Lemma StronglySorted_snoc_last (l : list Z) (m : Z) :
  StronglySorted Z.lt l ->
  (forall prev, last l = Some prev -> prev < m) ->
  StronglySorted Z.lt (l ++ [m]).
Proof.
  intros Hl Hm. apply StronglySorted_app_2; [|assumption|repeat constructor].
  intros x1 x2 H1 H2. apply list_elem_of_singleton in H2 as ->.
  destruct (last l) as [prev|] eqn:E.
  - specialize (Hm prev eq_refl).
    apply last_Some in E as [l' ->].
    apply elem_of_app in H1 as [H1|H1].
    + assert (x1 < prev); [|lia].
      eapply (StronglySorted_app_1_elem_of Z.lt l' [prev]); eauto.
      now apply list_elem_of_singleton.
    + apply list_elem_of_singleton in H1 as ->. assumption.
  - apply last_None in E as ->. inversion H1.
Qed.

Lemma scan_accounts_sorted utxo (in_ : Input) (kf : gmap string Z)
    (accs : list Address) st st' :
  StronglySorted Z.lt (signers st) ->
  scan_accounts utxo in_ kf accs st = Ok st' ->
  StronglySorted Z.lt (signers st').
Proof.
  revert st. induction accs as [|acc accs IH]; intros st Hs; simpl.
  - now intros [= <-].
  - destruct (kf !! _) as [i|]; [|discriminate].
    destruct (last (signers st)) as [prev|] eqn:E.
    + destruct (_ <=? prev) eqn:Hle; [discriminate|].
      apply IH. simpl. apply StronglySorted_snoc_last; [assumption|].
      intros p Hp. rewrite E in Hp. injection Hp as <-.
      apply Z.leb_gt in Hle. lia.
    + apply IH. simpl. apply StronglySorted_snoc_last; [assumption|].
      intros p Hp. rewrite E in Hp. discriminate.
Qed.

Lemma scan_inputs_sorted reader accounts (n : nat) (ins : list Input) st st' :
  StronglySorted Z.lt (signers st) ->
  scan_inputs reader accounts n ins st = Ok st' ->
  StronglySorted Z.lt (signers st').
Proof.
  revert n st. induction ins as [|in_ ins IH]; intros n st Hs; simpl.
  - now intros [= <-].
  - destruct (ReadUTXOKeys _ _ _) as [e|[utxo|]]; try discriminate.
    destruct (accounts !! n) as [accs|]; [|discriminate].
    destruct (scan_accounts _ _ _ _ _) as [st1| |] eqn:E; try discriminate.
    simpl. apply IH. simpl. eapply scan_accounts_sorted; eauto.
Qed.

(** What a successful call has computed and stored. *)
Lemma AggregateSign_Ok reader accounts (seed : list byte) signed signed' :
  AggregateSign reader accounts seed signed = (Ok tt, signed') ->
  exists as_ sc,
    aggregate reader accounts seed signed = Ok as_ /\
    signed' = set_aggregated as_ signed /\
    scan_inputs reader accounts 0 (Inputs (Transaction_ signed)) scan0 = Ok sc /\
    Signers as_ = signers sc.
Proof.
  unfold AggregateSign, bind, get, lift, modify.
  destruct (aggregate _ _ _ _) as [as_| |] eqn:E; try discriminate.
  intros [= <-]. exists as_. revert E. unfold aggregate.
  destruct (scan_inputs _ _ _ _ _) as [sc| |]; try discriminate. simpl.
  destruct (nonce_loop _ _ _ _) as [nc| |]; try discriminate. simpl.
  destruct (SetUniformBytes _) as [x|]; [|discriminate].
  destruct (sum_loop _ _ _ _ _) as [S_| |]; try discriminate. simpl.
  intros [= <-]. exists sc. auto.
Qed.

(** A call that fails in the first loop. *)
Lemma AggregateSign_scan_fails reader accounts (seed : list byte) signed :
  match scan_inputs reader accounts 0 (Inputs (Transaction_ signed)) scan0 with
  | Ok _ => True
  | Err e => AggregateSign reader accounts seed signed = (Err e, signed)
  | Panic p => AggregateSign reader accounts seed signed = (Panic p, signed)
  end.
Proof.
  unfold AggregateSign, bind, get, lift, aggregate.
  now destruct (scan_inputs _ _ _ _ _).
Qed.

(** C2: a successful [AggregateSign] stores signers in strictly ascending
    order; and when, after the inputs [pre] and the accounts [accs_pre] of
    the next input have been scanned, the next account's index
    [m = len(pubKeys) + i] is at most the last signer appended, the call
    returns the signers-order error and leaves the receiver, and with it
    [AggregatedSignature], as it was. *)
Theorem AggregateSign_signers_order reader accounts (seed : list byte) signed :
  (forall signed',
     AggregateSign reader accounts seed signed = (Ok tt, signed') ->
     exists as_,
       AggregatedSignature signed' = Some as_ /\
       StronglySorted Z.lt (Signers as_))
  /\
  (forall (pre post : list Input) (in_ : Input) utxo (accs_pre accs_post : list Address)
          (acc : Address) (st1 st2 : scan) (i prev : Z),
     Inputs (Transaction_ signed) = pre ++ in_ :: post ->
     scan_inputs reader accounts 0 pre scan0 = Ok st1 ->
     ReadUTXOKeys reader (Hash_ in_) (Index in_) = inr (Some utxo) ->
     accounts !! length pre = Some (accs_pre ++ acc :: accs_post) ->
     scan_accounts utxo in_ (keys_filter (fun i => i) 0 (UK_Keys utxo) ∅)
       accs_pre st1 = Ok st2 ->
     keys_filter (fun i => i) 0 (UK_Keys utxo) ∅
       !! KeyString (Public (DeriveGhostPrivateKey (UK_Mask utxo)
                               (PrivateViewKey acc) (PrivateSpendKey acc)
                               (Index in_)))
       = Some i ->
     last (signers st2) = Some prev ->
     len (pubKeys st2) + i <= prev ->
     AggregateSign reader accounts seed signed =
     (Err (ErrInvalidSignersOrder prev (len (pubKeys st2) + i)), signed)).
Proof.
  split.
  - intros signed' H.
    apply AggregateSign_Ok in H as (as_ & sc & _ & -> & Hsc & Hsig).
    exists as_. split; [reflexivity|]. rewrite Hsig.
    eapply scan_inputs_sorted; [|exact Hsc]. constructor.
  - intros pre post in_ utxo accs_pre accs_post acc st1 st2 i prev
      Hin Hpre Hrd Hacc Hscan Hkf Hlast Hle.
    pose proof (AggregateSign_scan_fails reader accounts seed signed) as H.
    rewrite Hin, scan_inputs_app, Hpre in H. simpl in H.
    rewrite Hrd, Hacc, scan_accounts_app, Hscan in H. simpl in H.
    rewrite Hkf, Hlast in H.
    replace (len (pubKeys st2) + i <=? prev) with true in H
      by (symmetry; apply Z.leb_le; lia).
    exact H.
Qed.

(** *** The result depends on the reader only through the inputs read *)

Lemma scan_inputs_ext (r1 r2 : R) accounts (n : nat) (ins : list Input) st :
  (forall in_ : Input, In in_ ins ->
     ReadUTXOKeys r1 (Hash_ in_) (Index in_) =
     ReadUTXOKeys r2 (Hash_ in_) (Index in_)) ->
  scan_inputs r1 accounts n ins st = scan_inputs r2 accounts n ins st.
Proof.
  revert n st. induction ins as [|in_ ins IH]; intros n st Hag; [reflexivity|].
  simpl. rewrite (Hag in_) by now left.
  destruct (ReadUTXOKeys r2 _ _) as [e|[utxo|]]; try reflexivity.
  destruct (accounts !! n) as [accs|]; [|reflexivity].
  destruct (scan_accounts _ _ _ _ _) as [st'| |]; simpl; try reflexivity.
  apply IH. intros j Hj. apply Hag. now right.
Qed.

Lemma aggregate_ext (r1 r2 : R) accounts (seed : list byte) (s1 s2 : SignedTransaction) :
  Inputs (Transaction_ s1) = Inputs (Transaction_ s2) ->
  PayloadHash s1 = PayloadHash s2 ->
  (forall in_ : Input, In in_ (Inputs (Transaction_ s1)) ->
     ReadUTXOKeys r1 (Hash_ in_) (Index in_) =
     ReadUTXOKeys r2 (Hash_ in_) (Index in_)) ->
  aggregate r1 accounts seed s1 = aggregate r2 accounts seed s2.
Proof.
  intros Hin Hmsg Hag. unfold aggregate.
  rewrite (scan_inputs_ext r1 r2) by assumption.
  now rewrite Hin, Hmsg.
Qed.

Lemma length_copy (dst src : list byte) : length (copy dst src) = length dst.
Proof.
  unfold copy. rewrite length_app, length_take, length_drop. lia.
Qed.

Lemma length_signature_bytes (P S_ : list byte) :
  length (signature_bytes P S_) = 64%nat.
Proof.
  unfold signature_bytes. rewrite length_app, !length_copy. reflexivity.
Qed.

(** C3: two successful calls of [AggregateSign] with the same accounts and
    seed, on transactions with the same inputs and payload hash (the same
    transaction, for one) and with readers that answer alike for those
    inputs, store the same [AggregatedSignature]: the same signers and the
    same 64 signature bytes. *)
Theorem AggregateSign_deterministic (r1 r2 : R) accounts (seed : list byte)
    (s1 s2 s1' s2' : SignedTransaction) :
  Inputs (Transaction_ s1) = Inputs (Transaction_ s2) ->
  PayloadHash s1 = PayloadHash s2 ->
  (forall in_ : Input, In in_ (Inputs (Transaction_ s1)) ->
     ReadUTXOKeys r1 (Hash_ in_) (Index in_) =
     ReadUTXOKeys r2 (Hash_ in_) (Index in_)) ->
  AggregateSign r1 accounts seed s1 = (Ok tt, s1') ->
  AggregateSign r2 accounts seed s2 = (Ok tt, s2') ->
  exists as_ : AggregatedSignature_,
    AggregatedSignature s1' = Some as_ /\
    AggregatedSignature s2' = Some as_ /\
    length (Signature_ as_) = 64%nat.
Proof.
  intros Hin Hmsg Hag H1 H2.
  apply AggregateSign_Ok in H1 as (a1 & sc1 & E1 & -> & _ & _).
  apply AggregateSign_Ok in H2 as (a2 & sc2 & E2 & -> & _ & _).
  rewrite (aggregate_ext r1 r2 accounts seed s1 s2 Hin Hmsg Hag), E2 in E1.
  injection E1 as <-. exists a2. repeat split.
  revert E2. unfold aggregate.
  destruct (scan_inputs _ _ _ _ _) as [sc| |]; try discriminate. simpl.
  destruct (nonce_loop _ _ _ _) as [nc| |]; try discriminate. simpl.
  destruct (SetUniformBytes _) as [x|]; [|discriminate].
  destruct (sum_loop _ _ _ _ _) as [S_| |]; try discriminate. simpl.
  intros [= <-]. apply length_signature_bytes.
Qed.

(** *** Indexing *)

Lemma at_index_in_range {A} (l : list A) (i : Z) :
  0 <= i < len l -> exists a, at_index l i = Ok a.
Proof.
  intros Hi. unfold at_index.
  replace (i <? 0) with false by (symmetry; apply Z.ltb_ge; lia).
  replace (len l <=? i) with false by (symmetry; apply Z.leb_gt; lia).
  simpl. destruct (l !! Z.to_nat i) as [a|] eqn:E; [now exists a|].
  apply lookup_ge_None in E. unfold len in Hi. lia.
Qed.

Lemma keys_filter_range (n : Z) (keys : list Key) (kf : gmap string Z)
    (s : string) (i : Z) :
  keys_filter (fun i => i) n keys kf !! s = Some i ->
  kf !! s = Some i \/ n <= i < n + len keys.
Proof.
  revert n kf. induction keys as [|k keys IH]; intros n kf; simpl.
  - now left.
  - intros H. apply IH in H as [H|H].
    + rewrite lookup_insert in H. destruct (decide (KeyString k = s)).
      * injection H as <-. right. unfold len. simpl length. lia.
      * now left.
    + right. unfold len in *. simpl length. lia.
Qed.

Lemma collected_mono (b1 b2 : Z) st :
  b1 <= b2 -> collected b1 st -> collected b2 st.
Proof.
  intros Hb [Hl Hf]. split; [assumption|].
  eapply Forall_impl; [exact Hf|]. simpl. intros; lia.
Qed.

Lemma scan_accounts_collected utxo (in_ : Input) (kf : gmap string Z) (K : Z)
    (accs : list Address) st st' :
  (forall (s : string) (i : Z), kf !! s = Some i -> 0 <= i < K) ->
  collected (len (pubKeys st) + K) st ->
  scan_accounts utxo in_ kf accs st = Ok st' ->
  collected (len (pubKeys st) + K) st' /\ pubKeys st' = pubKeys st.
Proof.
  intros Hkf. revert st. induction accs as [|acc accs IH]; intros st Hc; simpl.
  - intros [= <-]. now split.
  - destruct (kf !! _) as [i|] eqn:E; [|discriminate].
    apply Hkf in E.
    assert (Hc' : collected (len (pubKeys st) + K)
                    {| signers := signers st ++ [len (pubKeys st) + i];
                       privKeys := privKeys st ++
                         [DeriveGhostPrivateKey (UK_Mask utxo) (PrivateViewKey acc)
                            (PrivateSpendKey acc) (Index in_)];
                       pubKeys := pubKeys st |}).
    { destruct Hc as [Hl Hf]. split; simpl.
      - rewrite !length_app, Hl. reflexivity.
      - apply Forall_app. split; [assumption|].
        constructor; [|constructor]. unfold len. lia. }
    destruct (last (signers st)) as [prev|].
    + destruct (_ <=? prev); [discriminate|].
      intros H. apply IH in H; assumption.
    + intros H. apply IH in H; assumption.
Qed.

Lemma scan_accounts_no_panic utxo (in_ : Input) (kf : gmap string Z)
    (accs : list Address) st (p : panic) :
  scan_accounts utxo in_ kf accs st <> Panic p.
Proof.
  revert st. induction accs as [|acc accs IH]; intros st; simpl; [discriminate|].
  destruct (kf !! _) as [i|]; [|discriminate].
  destruct (last (signers st)) as [prev|]; [|apply IH].
  destruct (_ <=? prev); [discriminate | apply IH].
Qed.

Lemma scan_inputs_collected reader accounts (n : nat) (ins : list Input) st st' :
  collected (len (pubKeys st)) st ->
  scan_inputs reader accounts n ins st = Ok st' ->
  collected (len (pubKeys st')) st'.
Proof.
  revert n st. induction ins as [|in_ ins IH]; intros n st Hc; simpl.
  - now intros [= <-].
  - destruct (ReadUTXOKeys _ _ _) as [e|[utxo|]]; try discriminate.
    destruct (accounts !! n) as [accs|]; [|discriminate].
    destruct (scan_accounts _ _ _ _ _) as [st1| |] eqn:E; try discriminate.
    simpl. apply IH. simpl.
    apply (scan_accounts_collected _ _ _ (len (UK_Keys utxo))) in E
      as [[Hl Hf] Hp].
    + split; simpl; [assumption|].
      unfold len in *. rewrite length_app, Nat2Z.inj_add, Hp. exact Hf.
    + intros s i H. apply keys_filter_range in H as [H|H]; [|lia].
      now rewrite lookup_empty in H.
    + eapply collected_mono; [|exact Hc]. unfold len. lia.
Qed.

(** With an entry of [accounts] for every input the first loop does not
    panic. *)
Lemma scan_inputs_covered reader accounts (n : nat) (ins : list Input) st
    (p : panic) :
  (n + length ins <= length accounts)%nat ->
  scan_inputs reader accounts n ins st <> Panic p.
Proof.
  revert n st. induction ins as [|in_ ins IH]; intros n st Hn; simpl;
    [discriminate|].
  destruct (ReadUTXOKeys _ _ _) as [e|[utxo|]]; try discriminate.
  destruct (accounts !! n) as [accs|] eqn:E.
  - destruct (scan_accounts _ _ _ _ _) as [st1| |] eqn:E1; simpl;
      try discriminate.
    + apply IH. simpl in Hn. lia.
    + now apply scan_accounts_no_panic in E1.
  - apply lookup_ge_None in E. simpl in Hn. lia.
Qed.

(** With fewer entries than inputs the first loop does not end normally. *)
Lemma scan_inputs_uncovered reader accounts (n : nat) (ins : list Input) st :
  (n <= length accounts < n + length ins)%nat ->
  match scan_inputs reader accounts n ins st with
  | Ok _ => False
  | Err _ => True
  | Panic p => p = IndexOutOfRange
  end.
Proof.
  revert n st. induction ins as [|in_ ins IH]; intros n st Hn; simpl.
  - simpl in Hn. lia.
  - destruct (ReadUTXOKeys _ _ _) as [e|[utxo|]]; try exact I.
    destruct (accounts !! n) as [accs|] eqn:E; [|reflexivity].
    apply lookup_lt_Some in E.
    destruct (scan_accounts _ _ _ _ _) as [st1| |] eqn:E1; simpl.
    + apply IH. simpl in Hn. lia.
    + exact I.
    + now apply scan_accounts_no_panic in E1.
Qed.

Lemma nonce_loop_in_range (seed : list byte) (pubs : list Key) (ms : list Z)
    (nc : nonces) :
  Forall (fun m => 0 <= m < len pubs) ms ->
  match nonce_loop seed pubs ms nc with
  | Ok nc' => length (randoms nc') = (length (randoms nc) + length ms)%nat
  | Err _ => True
  | Panic _ => False
  end.
Proof.
  intros H. revert nc. induction H as [|m ms Hm _ IH]; intros nc; simpl.
  - lia.
  - destruct (PointSetBytes (Public _)) as [p|]; [|exact I].
    destruct (at_index_in_range pubs m Hm) as [pub ->]. simpl.
    destruct (PointSetBytes pub) as [a|]; [|exact I].
    specialize (IH {| randoms := randoms nc ++
                        [NewKeyFromSeed (Blake3Hash (AppendUint16 seed (uint16 m)) ++
                                         Blake3Hash (AppendUint16 seed (uint16 m)))];
                      sumP := PointAdd (sumP nc) p;
                      sumA := PointAdd (sumA nc) a |}).
    destruct (nonce_loop _ _ _ _) as [nc'| |]; try assumption.
    simpl in IH. rewrite length_app in IH. simpl in IH. lia.
Qed.

Lemma sum_loop_in_range (x : Scalar) (rands : list Key) (i : Z)
    (ks : list Key) (S_ : Scalar) :
  0 <= i -> i + len ks <= len rands ->
  sum_loop x rands i ks S_ <> Panic IndexOutOfRange.
Proof.
  revert i S_. induction ks as [|k ks IH]; intros i S_ Hi Hl; simpl;
    [discriminate|].
  destruct (SetCanonicalBytes k) as [y|]; [|discriminate].
  unfold len in Hl. simpl length in Hl.
  destruct (at_index_in_range rands i) as [ri ->]; [unfold len; lia|]. simpl.
  destruct (SetCanonicalBytes ri) as [z|]; [|discriminate].
  apply IH; unfold len; lia.
Qed.

Lemma aggregate_covered reader accounts (seed : list byte) signed :
  (length (Inputs (Transaction_ signed)) <= length accounts)%nat ->
  aggregate reader accounts seed signed <> Panic IndexOutOfRange.
Proof.
  intros Hn. unfold aggregate.
  destruct (scan_inputs _ _ _ _ _) as [sc| |] eqn:E; simpl; try discriminate.
  - apply scan_inputs_collected in E as [Hl Hf]; [|split; [reflexivity|constructor]].
    pose proof (nonce_loop_in_range seed (pubKeys sc) (signers sc) nonces0 Hf) as Hnc.
    destruct (nonce_loop _ _ _ _) as [nc| |]; simpl; try discriminate; [|contradiction].
    destruct (SetUniformBytes _) as [x|]; [|discriminate].
    pose proof (sum_loop_in_range x (randoms nc) 0 (privKeys sc) NewScalar) as Hs.
    destruct (sum_loop _ _ _ _ _) as [S_| |]; simpl; try discriminate.
    intros [= ->]. apply Hs; [lia| |reflexivity].
    unfold len. simpl in Hnc. lia.
  - now apply scan_inputs_covered in E.
Qed.

(** C10, as the code has it.  [AggregateSign] indexes [accounts] by the
    position of each input without a length check.  With an entry for every
    input no index is out of range.  With fewer entries the call never
    returns [nil] and leaves the receiver as it was; and once the inputs
    that have an entry are scanned and the reader has returned the outputs
    of the first input without one, the indexing panics.  (An error met
    before that point is returned instead.) *)
Theorem AggregateSign_accounts_index reader accounts (seed : list byte) signed :
  ((length (Inputs (Transaction_ signed)) <= length accounts)%nat ->
   fst (AggregateSign reader accounts seed signed) <> Panic IndexOutOfRange)
  /\
  ((length accounts < length (Inputs (Transaction_ signed)))%nat ->
   fst (AggregateSign reader accounts seed signed) <> Ok tt /\
   snd (AggregateSign reader accounts seed signed) = signed /\
   forall (pre post : list Input) (in_ : Input) (st1 : scan) utxo,
     Inputs (Transaction_ signed) = pre ++ in_ :: post ->
     length pre = length accounts ->
     scan_inputs reader accounts 0 pre scan0 = Ok st1 ->
     ReadUTXOKeys reader (Hash_ in_) (Index in_) = inr (Some utxo) ->
     AggregateSign reader accounts seed signed = (Panic IndexOutOfRange, signed)).
Proof.
  split.
  - intros Hn. pose proof (aggregate_covered reader accounts seed signed Hn) as H.
    unfold AggregateSign, bind, get, lift, modify.
    destruct (aggregate _ _ _ _) as [as_| |]; simpl; congruence.
  - intros Hn.
    pose proof (AggregateSign_scan_fails reader accounts seed signed) as Hf.
    pose proof (scan_inputs_uncovered reader accounts 0
                  (Inputs (Transaction_ signed)) scan0) as Hu.
    split; [|split].
    + destruct (scan_inputs _ _ _ _ _); [exfalso; apply Hu; lia| |];
        rewrite Hf; discriminate.
    + destruct (scan_inputs _ _ _ _ _); [exfalso; apply Hu; lia| |];
        now rewrite Hf.
    + intros pre post in_ st1 utxo Hin Hpre Hscan Hrd.
      rewrite Hin, scan_inputs_app, Hscan in Hf. simpl in Hf.
      rewrite Hrd in Hf.
      replace (accounts !! length pre) with (@None (list Address)) in Hf
        by (symmetry; apply lookup_ge_None; lia).
      exact Hf.
Qed.

End Aggregate.

Lemma AggregateSign_signers_order_witness :
  (exists as_,
     AggregatedSignature
       (snd (AggregateSign (CR := sampleC) sample_reader in_order [x73] two_inputs))
     = Some as_ /\
     StronglySorted Z.lt (Signers as_))
  /\
  AggregateSign (CR := sampleC) sample_reader out_of_order [x73] two_inputs
  = (Err (ErrInvalidSignersOrder 1 0), two_inputs).
Proof.
  split.
  - apply (proj1 (AggregateSign_signers_order (CR := sampleC)
                    sample_reader in_order [x73] two_inputs)).
    vm_compute. reflexivity.
  - apply (proj2 (AggregateSign_signers_order (CR := sampleC)
                    sample_reader out_of_order [x73] two_inputs)
             [] [plain [x02] 0] (plain [x01] 0)
             {| UK_Mask := [x07]; UK_Keys := [[x0a]; [x0b]] |}
             [account [x0b]] [] (account [x0a])
             scan0 {| signers := [1]; privKeys := [[x0b]]; pubKeys := [] |}
             0 1); try reflexivity.
    vm_compute. discriminate.
Defined.

Lemma AggregateSign_deterministic_witness :
  exists as_ : AggregatedSignature_,
    AggregatedSignature
      (snd (AggregateSign (CR := sampleC) sample_reader in_order [x73] two_inputs))
    = Some as_ /\
    AggregatedSignature
      (snd (AggregateSign (CR := sampleC) other_reader in_order [x73] two_inputs))
    = Some as_ /\
    length (Signature_ as_) = 64%nat.
Proof.
  apply (AggregateSign_deterministic (CR := sampleC) sample_reader other_reader
           in_order [x73] two_inputs two_inputs).
  - reflexivity.
  - reflexivity.
  - intros in_ [<-|[<-|[]]]; reflexivity.
  - vm_compute. reflexivity.
  - vm_compute. reflexivity.
Defined.

Lemma AggregateSign_accounts_index_witness :
  fst (AggregateSign (CR := sampleC) sample_reader in_order [x73] two_inputs)
    <> Panic IndexOutOfRange
  /\
  AggregateSign (CR := sampleC) sample_reader [[account [x0a]]] [x73] two_inputs
  = (Panic IndexOutOfRange, two_inputs).
Proof.
  split.
  - apply (proj1 (AggregateSign_accounts_index (CR := sampleC)
                    sample_reader in_order [x73] two_inputs)).
    simpl. lia.
  - assert (Hlt : (length [[account [x0a]]]
                   < length (Inputs (Transaction_ two_inputs)))%nat)
      by (simpl; lia).
    apply (proj2 (proj2 (proj2 (AggregateSign_accounts_index (CR := sampleC)
                                  sample_reader [[account [x0a]]] [x73] two_inputs)
                           Hlt))
             [plain [x01] 0] [] (plain [x02] 0)
             {| signers := [0]; privKeys := [[x0a]]; pubKeys := [[x0a]; [x0b]] |}
             {| UK_Mask := [x07]; UK_Keys := [[x0c]] |}); reflexivity.
Defined.

(** C10 as stated fails: with no entry for the only input, whose outputs
    the reader does not find, the call returns the input-not-found error;
    [accounts] is never indexed. *)
Lemma AggregateSign_short_accounts_error :
  (length (@nil (list Address))
   < length (Inputs (Transaction_ (signed_of [plain [x03] 0] []))))%nat
  /\
  AggregateSign (CR := sampleC) sample_reader [] [x73]
    (signed_of [plain [x03] 0] [])
  = (Err (ErrInputNotFound [x03] 0), signed_of [plain [x03] 0] [])
  /\
  fst (AggregateSign (CR := sampleC) sample_reader [] [x73]
         (signed_of [plain [x03] 0] []))
  <> Panic IndexOutOfRange.
Proof.
  split; [simpl; lia|]. split; [reflexivity | discriminate].
Qed.

Lemma one_strategy_not_both_populated_witness :
  ~ both_populated (run_ops (CR := sampleC) sign_twice one_input_built).
Proof.
  apply (one_strategy_not_both_populated (CR := sampleC) [x61]
           [OpAddInput [x01] 0] sign_twice).
  left. repeat constructor.
Defined.

(** C9 as stated fails: nothing keeps the two strategies apart.  After
    [SignInput] and then [AggregateSign] on a transaction made by
    [NewTransactionV5] and [AddInput], both fields are populated. *)
Lemma mixed_strategies_both_populated :
  both_populated (run_ops (CR := sampleC) sign_then_aggregate one_input_built).
Proof. split; vm_compute; discriminate. Qed.

Lemma ViewGhostKey_spec_witness :
  ViewGhostKey (CR := sampleC) [x76] three_outputs
  = (Ok [ @Build_Output sampleT 0 1 [[x0a; x76; x07; x00]] [x07] [] None;
          @Build_Output sampleT 0 1
            [[x0c; x76; x07; x02]; [x0d; x76; x07; x02]] [x07] [] None ],
     three_outputs).
Proof.
  rewrite (proj1 (ViewGhostKey_spec (CR := sampleC) [x76] three_outputs)).
  reflexivity.
Defined.

(** * The scenarios of the specification, run on the sample values *)

Example scenario_mint_input :
  TransactionType (signed_of [mint_input] [output_of_type OutputTypeScript []])
  = 0x01.
Proof. reflexivity. Qed.

Example scenario_withdrawal_submit :
  TransactionType
    (signed_of [plain [x01] 0]
       [ output_of_type OutputTypeScript [];
         output_of_type OutputTypeWithdrawalSubmit [];
         output_of_type OutputTypeScript [] ])
  = 0x03.
Proof. reflexivity. Qed.

Example scenario_all_script :
  TransactionType
    (signed_of [plain [x01] 0]
       [ output_of_type OutputTypeScript [];
         output_of_type OutputTypeScript [];
         output_of_type OutputTypeScript [] ])
  = 0x00.
Proof. reflexivity. Qed.

Example scenario_mixed_unknown :
  TransactionType
    (signed_of [plain [x01] 0]
       [ output_of_type OutputTypeScript []; output_of_type 0x77 [] ])
  = 0xff.
Proof. reflexivity. Qed.

Example scenario_sign_raw_two_deposits :
  fst (SignRaw (CR := sampleC) [x0a] (signed_of [deposit_input; deposit_input] []))
  = Err (ErrInvalidInputsCount 2).
Proof. reflexivity. Qed.

Example scenario_aggregate_out_of_order :
  fst (AggregateSign (CR := sampleC) sample_reader out_of_order [x73] two_inputs)
  = Err (ErrInvalidSignersOrder 1 0).
Proof. vm_compute. reflexivity. Qed.

Example scenario_aggregate_signers :
  Signers <$> AggregatedSignature
    (snd (AggregateSign (CR := sampleC) sample_reader in_order [x73] two_inputs))
  = Some [0; 1; 2].
Proof. vm_compute. reflexivity. Qed.

(** * Further properties of the classifier and the constructors *)

Section Construction.
Context {ET : ExternTypes} {CR : Crypto}.
Implicit Types (tx : Transaction) (signed : SignedTransaction)
  (bs : list BuildOp).

Lemma special_in_types (t v : Z) :
  special t = Some v -> In v transaction_types.
Proof.
  unfold special, special_output_types, assoc.
  repeat (destruct (t =? _); [intros [= <-]; simpl; tauto|]).
  discriminate.
Qed.

Lemma scan_output_types_in_types (outs : list Output) (b : bool) :
  In (scan_output_types outs b) transaction_types.
Proof.
  revert b. induction outs as [|o outs IH]; intros b; simpl scan_output_types.
  - destruct b; simpl; tauto.
  - rewrite output_case_special.
    destruct (special (Type_ o)) eqn:E; [|apply IH].
    eapply special_in_types, E.
Qed.

(** X1: Whatever the transaction, [TransactionType] returns one of the twelve
    tags it names; the reserved tag 0x08 and every other byte never come
    out. *)
Theorem TransactionType_range signed :
  In (TransactionType signed) transaction_types /\
  TransactionType signed <> transactionTypeNodeResign.
Proof.
  assert (H : In (TransactionType signed) transaction_types).
  { unfold TransactionType.
    destruct (scan_input_types _) as [t|] eqn:E;
      [|apply scan_output_types_in_types].
    induction (Inputs (Transaction_ signed)) as [|i ins IH]; [discriminate|].
    simpl in E. unfold input_type in E.
    destruct (Mint i); [injection E as <-; simpl; tauto|].
    destruct (Deposit i); [injection E as <-; simpl; tauto|].
    destruct (Genesis i); [injection E as <-; simpl; tauto|].
    exact (IH E). }
  split; [exact H|].
  intros E. rewrite E in H. simpl in H.
  repeat (destruct H as [H|H]; [discriminate|]). exact H.
Qed.

(** X2: When the first input that is not an ordinary reference has [Genesis]
    but neither [Mint] nor [Deposit], the type is [Unknown], whatever the
    later inputs and the outputs. *)
Theorem TransactionType_genesis_input signed (pre post : list Input)
    (i : Input) :
  Inputs (Transaction_ signed) = pre ++ i :: post ->
  Forall plain_input pre ->
  Mint i = None -> Deposit i = None -> Genesis i <> None ->
  TransactionType signed = TransactionTypeUnknown.
Proof.
  intros Hin Hpre Hm Hd Hg. unfold TransactionType.
  rewrite Hin, scan_input_types_plain by assumption. simpl.
  unfold input_type. rewrite Hm, Hd.
  destruct (Genesis i); [reflexivity | congruence].
Qed.

Lemma scan_input_types_snoc_reference (ins : list Input) (hash : Hash)
    (index : Z) :
  scan_input_types (ins ++ [reference hash index]) = scan_input_types ins.
Proof.
  induction ins as [|i ins IH]; [reflexivity|].
  simpl. now destruct (input_type i).
Qed.

(** X3: [AddInput] does not change the type of a transaction: the input it
    appends is an ordinary reference, which the classifier passes over. *)
Theorem AddInput_keeps_type tx (hash : Hash) (index : Z)
    (agg : option AggregatedSignature_) (sigs : list (gmap Z Signature)) :
  TransactionType
    {| Transaction_ := snd (AddInput hash index tx);
       AggregatedSignature := agg; SignaturesMap := sigs |}
  = TransactionType
      {| Transaction_ := tx; AggregatedSignature := agg; SignaturesMap := sigs |}.
Proof.
  unfold TransactionType, AddInput, modify. simpl.
  fold (reference hash index).
  now rewrite scan_input_types_snoc_reference.
Qed.

(** *** Transactions made by the constructors *)

Lemma AddOutputWithType_output tx (ot : Z) (accounts : list Address)
    (s : Script) (amount : Integer) (seed : list byte) :
  AddOutputWithType ot accounts s amount seed tx =
  (Ok tt,
   {| Version := Version tx; Asset := Asset tx; Inputs := Inputs tx;
      Outputs := Outputs tx ++
                 [output_at (len (Outputs tx)) ot accounts s amount seed];
      References := References tx; Extra := Extra tx |}).
Proof.
  unfold AddOutputWithType, bind, get, modify. simpl.
  destruct accounts as [|a accounts]; [reflexivity|].
  replace (0 <? len (a :: accounts)) with true
    by (symmetry; apply Z.ltb_lt; unfold len; simpl; lia).
  unfold output_at. do 4 f_equal.
  generalize (a :: accounts) as accs. intros accs.
  change (map _ accs) with
    ([] ++ map (fun a0 => DeriveGhostPublicKey (NewKeyFromSeed seed)
                           (PublicViewKey a0) (PublicSpendKey a0)
                           (len (Outputs tx))) accs).
  generalize (@nil Key) as acc0.
  induction accs as [|b accs IH]; intros acc0; simpl.
  - now rewrite app_nil_r.
  - rewrite IH, <- app_assoc. reflexivity.
Qed.

Lemma build_from tx bs :
  let tx' := fold_left (fun t b => snd (run_build b t)) bs tx in
  Version tx' = Version tx /\ Asset tx' = Asset tx /\
  References tx' = References tx /\ Extra tx' = Extra tx /\
  Inputs tx' = Inputs tx ++ inputs_of bs /\
  Outputs tx' = Outputs tx ++ outputs_of (length (Outputs tx)) bs.
Proof.
  revert tx. induction bs as [|b bs IH]; intros tx; simpl.
  - now rewrite !app_nil_r.
  - destruct b as [hash index|ot accounts s amount seed].
    + destruct (IH (snd (AddInput hash index tx))) as (Hv & Ha & Hr & He & Hi & Ho).
      simpl in *. rewrite Hv, Ha, Hr, He, Hi, Ho, <- app_assoc. now repeat split.
    + simpl run_build. rewrite AddOutputWithType_output. simpl snd.
      destruct (IH {| Version := Version tx; Asset := Asset tx;
                      Inputs := Inputs tx;
                      Outputs := Outputs tx ++
                        [output_at (len (Outputs tx)) ot accounts s amount seed];
                      References := References tx; Extra := Extra tx |})
        as (Hv & Ha & Hr & He & Hi & Ho).
      simpl in *. rewrite Hv, Ha, Hr, He, Hi, Ho, <- app_assoc.
      rewrite length_app. simpl length.
      replace (length (Outputs tx) + 1)%nat with (S (length (Outputs tx))) by lia.
      now repeat split.
Qed.

Lemma build_inputs_outputs (asset : Hash) bs :
  Inputs (build asset bs) = inputs_of bs /\
  Outputs (build asset bs) = outputs_of 0 bs.
Proof.
  unfold build.
  destruct (build_from (NewTransactionV5 asset) bs) as (_ & _ & _ & _ & Hi & Ho).
  now split.
Qed.

(** X4: A transaction made by [NewTransactionV5], [AddInput] and
    [AddOutputWithType] has version 5, the given asset, no references and
    no extra; its inputs are the references added, in order; and each
    output holds one ghost key per account, derived with the position at
    which the output stands. *)
Theorem build_shape (asset : Hash) bs :
  Version (build asset bs) = TxVersionHashSignature /\
  Asset (build asset bs) = asset /\
  References (build asset bs) = [] /\
  Extra (build asset bs) = [] /\
  Inputs (build asset bs) = inputs_of bs /\
  Outputs (build asset bs) = outputs_of 0 bs.
Proof.
  unfold build. exact (build_from (NewTransactionV5 asset) bs).
Qed.

Lemma inputs_of_plain bs : Forall plain_input (inputs_of bs).
Proof.
  induction bs as [|[hash index|] bs IH]; simpl; try assumption; [constructor|].
  constructor; [now repeat split | assumption].
Qed.

Lemma outputs_of_types (n : nat) bs :
  Forall (fun b => match b with
                   | OpAddOutputWithType ot _ _ _ _ => ot = OutputTypeScript
                   | OpAddInput _ _ => True
                   end) bs ->
  Forall (fun o => Type_ o = OutputTypeScript) (outputs_of n bs).
Proof.
  intros H. revert n. induction H as [|b bs Hb _ IH]; intros n; [constructor|].
  destruct b as [|ot accounts s amount seed]; simpl; [apply IH|].
  constructor; [|apply IH]. now destruct accounts.
Qed.

(** X5: A transaction made by the constructors has only ordinary inputs, so it
    is never a [Mint] or a [Deposit] one; and when all its outputs were
    added with type [Script] (none at all included) it is a [Script]
    transaction. *)
Theorem build_type (asset : Hash) bs :
  Forall plain_input (Inputs (build asset bs)) /\
  TransactionType (promote (build asset bs)) <> TransactionTypeMint /\
  TransactionType (promote (build asset bs)) <> TransactionTypeDeposit /\
  (Forall (fun b => match b with
                    | OpAddOutputWithType ot _ _ _ _ => ot = OutputTypeScript
                    | OpAddInput _ _ => True
                    end) bs ->
   TransactionType (promote (build asset bs)) = TransactionTypeScript).
Proof.
  destruct (build_inputs_outputs asset bs) as (Hi & Ho).
  assert (Hp : Forall plain_input (Inputs (build asset bs)))
    by (rewrite Hi; apply inputs_of_plain).
  split; [exact Hp|].
  unfold TransactionType. simpl Transaction_.
  rewrite (scan_input_types_all_plain _ Hp).
  assert (Hn : forall outs b v, scan_output_types outs b = v ->
                 v <> TransactionTypeMint /\ v <> TransactionTypeDeposit).
  { clear. intros outs. induction outs as [|o outs IH]; intros b v; simpl.
    - intros <-. destruct b; split; discriminate.
    - rewrite output_case_special. unfold special, special_output_types, assoc.
      repeat (destruct (Type_ o =? _); [intros <-; split; discriminate|]).
      apply IH. }
  split; [|split].
  - exact (proj1 (Hn _ _ _ eq_refl)).
  - exact (proj2 (Hn _ _ _ eq_refl)).
  - intros Hs. rewrite Ho.
    pose proof (outputs_of_types 0 bs Hs) as Hall. revert Hall.
    generalize (outputs_of 0 bs). clear. intros outs H.
    induction H as [|o outs Ho _ IH]; [reflexivity|].
    simpl. rewrite Ho. exact IH.
Qed.

Lemma scan_output_types_snoc_script (outs : list Output) (o : Output)
    (b : bool) :
  Type_ o = OutputTypeScript ->
  scan_output_types (outs ++ [o]) b = scan_output_types outs b.
Proof.
  intros Ho. revert b. induction outs as [|o' outs IH]; intros b; simpl.
  - rewrite Ho. simpl. now rewrite andb_true_r.
  - destruct (output_case (Type_ o')); [reflexivity | apply IH].
Qed.

Lemma copy_whole (dst src : list byte) :
  length src = length dst -> copy dst src = src.
Proof.
  intros H. unfold copy. rewrite H, take_ge, drop_ge by lia.
  apply app_nil_r.
Qed.

(** X6: [AddScriptOutput] never fails and does not change the type of a
    transaction, whatever the accounts and the seed; and
    [AddRandomScriptOutput] is [AddScriptOutput] with the 64 bytes of the
    random source as the seed. *)
Theorem AddScriptOutput_keeps_type tx (accounts : list Address) (s : Script)
    (amount : Integer) (seed rnd : list byte)
    (agg : option AggregatedSignature_) (sigs : list (gmap Z Signature)) :
  fst (AddScriptOutput accounts s amount seed tx) = Ok tt /\
  TransactionType
    {| Transaction_ := snd (AddScriptOutput accounts s amount seed tx);
       AggregatedSignature := agg; SignaturesMap := sigs |}
  = TransactionType
      {| Transaction_ := tx; AggregatedSignature := agg; SignaturesMap := sigs |}
  /\
  (length rnd = 64%nat ->
   AddRandomScriptOutput rnd accounts s amount tx
   = AddScriptOutput accounts s amount rnd tx).
Proof.
  unfold AddRandomScriptOutput, AddScriptOutput.
  rewrite AddOutputWithType_output. split; [reflexivity|]. split.
  - unfold TransactionType. simpl.
    destruct (scan_input_types (Inputs tx)); [reflexivity|].
    apply scan_output_types_snoc_script. now destruct accounts.
  - intros H. rewrite copy_whole; [reflexivity|].
    now rewrite length_replicate.
Qed.

(** X7: [SignRaw] never succeeds on a transaction made by the constructors: it
    returns the inputs-count error unless exactly one input was added and
    the input-format error then, and leaves the receiver as it was. *)
Theorem SignRaw_fails_on_built (key : Key) (asset : Hash) bs :
  SignRaw key (promote (build asset bs)) =
  (Err (if decide (length (inputs_of bs) = 1%nat)
        then ErrInvalidInputFormat
        else ErrInvalidInputsCount (len (inputs_of bs))),
   promote (build asset bs)).
Proof.
  destruct (build_inputs_outputs asset bs) as (Hi & _).
  unfold SignRaw, bind, get, throw, lift, modify.
  change (Transaction_ (promote (build asset bs))) with (build asset bs).
  rewrite Hi.
  pose proof (inputs_of_plain bs) as Hp.
  destruct (decide (length (inputs_of bs) = 1%nat)) as [E|E].
  - destruct (inputs_of bs) as [|i [|j l]]; try discriminate.
    apply Forall_inv in Hp as (Hm & Hd & _).
    simpl. now rewrite Hd, Hm.
  - replace (len (inputs_of bs) =? 1) with false; [reflexivity|].
    symmetry. apply Z.eqb_neq. unfold len. lia.
Qed.

End Construction.

(** * Further properties of the per-input signers *)

Section Signing.
Context {ET : ExternTypes} {CR : Crypto} {R : Type} {RD : UTXOKeysReader R}.
Implicit Types (signed : SignedTransaction) (accounts : list Address)
  (keys : list Key) (kf : gmap string Z) (s : string).

(** *** The key filter *)

Lemma keys_filter_last_position (conv : Z -> Z) (n : Z) keys kf s :
  keys_filter conv n keys kf !! s =
  match last_position s n keys with
  | Some j => Some (conv j)
  | None => kf !! s
  end.
Proof.
  revert n kf. induction keys as [|k keys IH]; intros n kf; [reflexivity|].
  simpl. rewrite IH.
  destruct (last_position s (n + 1) keys) as [j|]; [reflexivity|].
  rewrite lookup_insert. destruct (decide (KeyString k = s)); reflexivity.
Qed.

Lemma last_position_None s (n : Z) keys :
  last_position s n keys = None <-> forall k, k ∈ keys -> KeyString k <> s.
Proof.
  revert n. induction keys as [|k keys IH]; intros n; simpl.
  - split; [intros _ k H; inversion H | reflexivity].
  - destruct (last_position s (n + 1) keys) as [j|] eqn:E.
    + split; [discriminate|]. intros H.
      assert (E' : last_position s (n + 1) keys = None).
      { apply IH. intros k' Hk'. apply H. now right. }
      congruence.
    + destruct (decide (KeyString k = s)) as [Hs|Hs].
      * split; [discriminate|]. intros H. exfalso. apply (H k); [left|assumption].
      * split; [|reflexivity]. intros _ k' Hk'.
        apply elem_of_cons in Hk' as [->|Hk']; [assumption|].
        now apply (proj1 (IH (n + 1)) E).
Qed.

Lemma last_position_Some s (n : Z) keys (j : Z) :
  last_position s n keys = Some j ->
  exists (p : nat) (k : Key),
    j = n + Z.of_nat p /\ keys !! p = Some k /\ KeyString k = s /\
    forall (p' : nat) (k' : Key),
      (p < p')%nat -> keys !! p' = Some k' -> KeyString k' <> s.
Proof.
  revert n. induction keys as [|k keys IH]; intros n; simpl; [discriminate|].
  destruct (last_position s (n + 1) keys) as [j'|] eqn:E.
  - intros [= <-]. destruct (IH _ E) as (p & k0 & -> & Hp & Hs & Hlast).
    exists (S p), k0. repeat split; try assumption; [lia|].
    intros [|p'] k' Hlt Hk'; [lia|]. apply (Hlast p' k'); [lia | assumption].
  - destruct (decide (KeyString k = s)) as [Hs|Hs]; [|discriminate].
    intros [= <-]. exists 0%nat, k. repeat split; try assumption; [lia|].
    intros [|p'] k' Hlt Hk'; [lia|].
    apply (proj1 (last_position_None s (n + 1) keys) E).
    apply list_elem_of_lookup. now exists p'.
Qed.

(** X8: The key filter built from the keys of an output sends the string of a
    key to the position of the last key with that string (converted by
    [conv]), and holds nothing for a string no key has. *)
Theorem keys_filter_last_wins (conv : Z -> Z) keys s :
  ((forall k, k ∈ keys -> KeyString k <> s) /\
   keys_filter conv 0 keys ∅ !! s = None)
  \/
  (exists (p : nat) (k : Key),
     keys !! p = Some k /\ KeyString k = s /\
     (forall (p' : nat) (k' : Key),
        (p < p')%nat -> keys !! p' = Some k' -> KeyString k' <> s) /\
     keys_filter conv 0 keys ∅ !! s = Some (conv (Z.of_nat p))).
Proof.
  rewrite keys_filter_last_position.
  destruct (last_position s 0 keys) as [j|] eqn:E.
  - right. destruct (last_position_Some _ _ _ _ E) as (p & k & -> & Hp & Hs & Hl).
    exists p, k. now repeat split.
  - left. split; [exact (proj1 (last_position_None s 0 keys) E) | apply lookup_empty].
Qed.

Lemma keys_filter_sound (conv : Z -> Z) keys s (i : Z) :
  (forall p : nat, (p < length keys)%nat -> conv (Z.of_nat p) = Z.of_nat p) ->
  keys_filter conv 0 keys ∅ !! s = Some i ->
  0 <= i < len keys /\
  exists k, keys !! Z.to_nat i = Some k /\ KeyString k = s.
Proof.
  intros Hconv. rewrite keys_filter_last_position.
  destruct (last_position s 0 keys) as [j|] eqn:E;
    [|rewrite lookup_empty; discriminate].
  destruct (last_position_Some _ _ _ _ E) as (p & k & -> & Hp & Hs & _).
  pose proof (lookup_lt_Some _ _ _ Hp) as Hlt.
  rewrite Z.add_0_l, (Hconv p Hlt). intros [= <-]. unfold len.
  split; [lia|]. exists k. now rewrite Nat2Z.id.
Qed.

(** X9: With at most 65536 keys the positions that [SignUTXO] and [SignInput]
    keep as [uint16] are exact: a position found for a string is that of a
    key with this string. *)
Theorem keys_filter_uint16_exact keys s (i : Z) :
  len keys <= 65536 ->
  keys_filter uint16 0 keys ∅ !! s = Some i ->
  0 <= i < len keys /\
  exists k, keys !! Z.to_nat i = Some k /\ KeyString k = s.
Proof.
  intros Hlen. apply keys_filter_sound. intros p Hp.
  unfold uint16. apply Z.mod_small. unfold len in Hlen. lia.
Qed.

Lemma keys_filter_member (conv : Z -> Z) keys (k : Key) :
  k ∈ keys -> is_Some (keys_filter conv 0 keys ∅ !! KeyString k).
Proof.
  intros Hk. rewrite keys_filter_last_position.
  destruct (last_position (KeyString k) 0 keys) eqn:E; [eauto|].
  exfalso. exact (proj1 (last_position_None _ _ _) E k Hk eq_refl).
Qed.

(** *** The loop over the accounts *)

Lemma sign_accounts_all_own (mask : Key) (idx : Z) kf (msg : Hash) accounts
    (sigs0 : gmap Z Signature) :
  Forall (owns kf mask idx) accounts ->
  exists sigs : gmap Z Signature,
    sign_accounts mask idx kf msg accounts sigs0 = Ok sigs /\
    (forall i, is_Some (sigs0 !! i) -> is_Some (sigs !! i)) /\
    (forall acc, acc ∈ accounts ->
       exists i, kf !! KeyString (Public (ghost_private mask idx acc)) = Some i /\
                 is_Some (sigs !! i)) /\
    (forall i sg, sigs !! i = Some sg ->
       sigs0 !! i = Some sg \/
       exists acc, acc ∈ accounts /\
         kf !! KeyString (Public (ghost_private mask idx acc)) = Some i /\
         sg = Sign (ghost_private mask idx acc) msg).
Proof.
  intros H. revert sigs0.
  induction H as [|acc accounts [i Hi] _ IH]; intros sigs0.
  - exists sigs0. split; [reflexivity|]. split; [auto|].
    split; [intros acc H; inversion H | auto].
  - simpl. fold (ghost_private mask idx acc). rewrite Hi.
    destruct (IH (<[i := Sign (ghost_private mask idx acc) msg]> sigs0))
      as (sigs & -> & Hkeep & Hall & Hfrom).
    exists sigs. split; [reflexivity|]. split; [|split].
    + intros j Hj. apply Hkeep. rewrite lookup_insert.
      destruct (decide (i = j)); [eauto | assumption].
    + intros a Ha. apply elem_of_cons in Ha as [->|Ha]; [|now apply Hall].
      exists i. split; [assumption|]. apply Hkeep.
      rewrite lookup_insert_eq. eauto.
    + intros j sg Hj. apply Hfrom in Hj as [Hj|(a & Ha & Hk & ->)].
      * rewrite lookup_insert in Hj. destruct (decide (i = j)) as [<-|].
        -- injection Hj as <-. right. exists acc.
           split; [left | now split].
        -- now left.
      * right. exists a. split; [now right | now split].
Qed.

Lemma sign_accounts_first_missing (mask : Key) (idx : Z) kf (msg : Hash)
    (pre post : list Address) (acc : Address) (sigs0 : gmap Z Signature) :
  Forall (owns kf mask idx) pre ->
  ~ owns kf mask idx acc ->
  sign_accounts mask idx kf msg (pre ++ acc :: post) sigs0 =
  Err (ErrInvalidKey acc).
Proof.
  intros H Hacc. revert sigs0.
  induction H as [|a pre [i Hi] _ IH]; intros sigs0; simpl.
  - fold (ghost_private mask idx acc).
    destruct (kf !! _) eqn:E; [|reflexivity].
    exfalso. apply Hacc. unfold owns. rewrite E. eauto.
  - fold (ghost_private mask idx a). rewrite Hi. apply IH.
Qed.

Lemma len_cons_nonzero {A} (a : A) (l : list A) : (len (a :: l) =? 0) = false.
Proof. apply Z.eqb_neq. unfold len. simpl. lia. Qed.

(** X10: [SignUTXO] with accounts that all have a key among those of the output:
    the call succeeds, and the map it appends holds an entry at the key
    position of every account and nothing else, each entry being the
    signature of the payload hash under the ghost private key of an account
    with that position. *)
Theorem SignUTXO_complete (utxo : UTXO) accounts signed :
  accounts <> [] ->
  Forall (owns (keys_filter uint16 0 (UTXO_Keys utxo) ∅)
            (UTXO_Mask utxo) (UTXO_Index utxo)) accounts ->
  exists sigs : gmap Z Signature,
    SignUTXO utxo accounts signed = (Ok tt, append_sigs sigs signed) /\
    (forall acc, acc ∈ accounts ->
       exists i,
         keys_filter uint16 0 (UTXO_Keys utxo) ∅
           !! KeyString (Public (ghost_private (UTXO_Mask utxo)
                                   (UTXO_Index utxo) acc)) = Some i /\
         is_Some (sigs !! i)) /\
    (forall i sg, sigs !! i = Some sg ->
       exists acc, acc ∈ accounts /\
         keys_filter uint16 0 (UTXO_Keys utxo) ∅
           !! KeyString (Public (ghost_private (UTXO_Mask utxo)
                                   (UTXO_Index utxo) acc)) = Some i /\
         sg = Sign (ghost_private (UTXO_Mask utxo) (UTXO_Index utxo) acc)
                (PayloadHash signed)).
Proof.
  intros Hne Hown.
  destruct (sign_accounts_all_own (UTXO_Mask utxo) (UTXO_Index utxo) _
              (PayloadHash signed) accounts ∅ Hown)
    as (sigs & Hs & _ & Hall & Hfrom).
  exists sigs. split; [|split; [exact Hall|]].
  - unfold SignUTXO, bind, get, lift, modify.
    destruct accounts as [|a accounts]; [congruence|].
    now rewrite len_cons_nonzero, Hs.
  - intros i sg Hi. apply Hfrom in Hi as [Hi|Hi]; [|exact Hi].
    now rewrite lookup_empty in Hi.
Qed.

(** X11: [SignUTXO] stops at the first account that has no key among those of
    the output: it returns the invalid-key error for that account and
    appends nothing, whatever the accounts after it. *)
Theorem SignUTXO_first_missing (utxo : UTXO) (pre post : list Address)
    (acc : Address) signed :
  Forall (owns (keys_filter uint16 0 (UTXO_Keys utxo) ∅)
            (UTXO_Mask utxo) (UTXO_Index utxo)) pre ->
  ~ owns (keys_filter uint16 0 (UTXO_Keys utxo) ∅)
      (UTXO_Mask utxo) (UTXO_Index utxo) acc ->
  SignUTXO utxo (pre ++ acc :: post) signed = (Err (ErrInvalidKey acc), signed).
Proof.
  intros Hpre Hacc. unfold SignUTXO, bind, get, lift, modify.
  replace (len (pre ++ acc :: post) =? 0) with false
    by (symmetry; apply Z.eqb_neq; unfold len; rewrite length_app; simpl; lia).
  now rewrite sign_accounts_first_missing.
Qed.

(** *** SignInput by cases *)

Lemma at_index_lookup {A} (l : list A) (i : Z) (a : A) :
  0 <= i -> l !! Z.to_nat i = Some a -> at_index l i = Ok a.
Proof.
  intros Hi Hl. unfold at_index.
  pose proof (lookup_lt_Some _ _ _ Hl) as Hlt.
  replace (i <? 0) with false by (symmetry; apply Z.ltb_ge; lia).
  replace (len l <=? i) with false
    by (symmetry; apply Z.leb_gt; unfold len; lia).
  simpl. now rewrite Hl.
Qed.

Lemma SignInput_at (reader : R) (index : Z) (acc0 : Address)
    (rest : list Address) (in_ : Input) signed :
  0 <= index ->
  Inputs (Transaction_ signed) !! Z.to_nat index = Some in_ ->
  SignInput reader index (acc0 :: rest) signed =
  match Deposit in_, Mint in_ with
  | None, None =>
      match ReadUTXOKeys reader (Hash_ in_) (Index in_) with
      | inl e => (Err (ErrReader e), signed)
      | inr None => (Err (ErrInputNotFound (Hash_ in_) (Index in_)), signed)
      | inr (Some utxo) =>
          SignUTXO {| UTXO_Keys := UK_Keys utxo; UTXO_Mask := UK_Mask utxo;
                      UTXO_Index := Index in_ |} (acc0 :: rest) signed
      end
  | _, _ => SignRaw (PrivateSpendKey acc0) signed
  end.
Proof.
  intros Hi Hl. unfold SignInput, SignUTXO, bind at 1, get.
  rewrite len_cons_nonzero.
  pose proof (lookup_lt_Some _ _ _ Hl) as Hlt.
  replace (index >=? len (Inputs (Transaction_ signed))) with false
    by (symmetry; rewrite Z.geb_leb; apply Z.leb_gt; unfold len; lia).
  unfold bind at 1, lift at 1. rewrite (at_index_lookup _ _ _ Hi Hl).
  destruct (Deposit in_), (Mint in_);
    try (unfold bind at 1, lift at 1; now rewrite at_index_0).
  destruct (ReadUTXOKeys _ _ _) as [e|[utxo|]]; reflexivity.
Qed.

(** X12: [SignInput] on a deposit or mint input is [SignRaw] with the private
    spend key of the first account: the reader and the other accounts play
    no part, and with any number of inputs other than one the call returns
    the inputs-count error. *)
Theorem SignInput_deposit_or_mint (reader : R) (index : Z) (acc0 : Address)
    (rest : list Address) (in_ : Input) signed :
  0 <= index ->
  Inputs (Transaction_ signed) !! Z.to_nat index = Some in_ ->
  Deposit in_ <> None \/ Mint in_ <> None ->
  SignInput reader index (acc0 :: rest) signed
    = SignRaw (PrivateSpendKey acc0) signed
  /\
  (length (Inputs (Transaction_ signed)) <> 1%nat ->
   SignInput reader index (acc0 :: rest) signed =
   (Err (ErrInvalidInputsCount (len (Inputs (Transaction_ signed)))), signed)).
Proof.
  intros Hi Hl Hdm.
  assert (E : SignInput reader index (acc0 :: rest) signed
              = SignRaw (PrivateSpendKey acc0) signed).
  { rewrite (SignInput_at reader index acc0 rest in_ signed Hi Hl).
    destruct (Deposit in_), (Mint in_); try reflexivity.
    destruct Hdm; congruence. }
  split; [exact E|]. intros Hn. rewrite E.
  unfold SignRaw, bind, get, throw.
  replace (len (Inputs (Transaction_ signed)) =? 1) with false; [reflexivity|].
  symmetry. apply Z.eqb_neq. unfold len. lia.
Qed.

(** X13: [SignInput] on an ordinary input hands on the reader's error, returns
    the input-not-found error when the reader finds nothing, and otherwise
    does what [SignUTXO] does on the keys and mask the reader returned,
    with the index of the input as the derivation index. *)
Theorem SignInput_reference (reader : R) (index : Z) accounts (in_ : Input)
    signed :
  accounts <> [] ->
  0 <= index ->
  Inputs (Transaction_ signed) !! Z.to_nat index = Some in_ ->
  Deposit in_ = None -> Mint in_ = None ->
  SignInput reader index accounts signed =
  match ReadUTXOKeys reader (Hash_ in_) (Index in_) with
  | inl e => (Err (ErrReader e), signed)
  | inr None => (Err (ErrInputNotFound (Hash_ in_) (Index in_)), signed)
  | inr (Some utxo) =>
      SignUTXO {| UTXO_Keys := UK_Keys utxo; UTXO_Mask := UK_Mask utxo;
                  UTXO_Index := Index in_ |} accounts signed
  end.
Proof.
  intros Hne Hi Hl Hd Hm. destruct accounts as [|acc0 rest]; [congruence|].
  rewrite (SignInput_at reader index acc0 rest in_ signed Hi Hl).
  now rewrite Hd, Hm.
Qed.

End Signing.

(** * Ghost keys from construction to viewing and signing *)

Section GhostKeys.
Context {ET : ExternTypes} {CR : Crypto} {R : Type} {RD : UTXOKeysReader R}.
Implicit Types (tx : Transaction) (signed : SignedTransaction)
  (recipients accounts : list Address).

Lemma view_from_app (a : Key) (n : nat) (outs1 outs2 : list Output) :
  view_from a n (outs1 ++ outs2) =
  view_from a n outs1 ++ view_from a (n + length outs1) outs2.
Proof.
  revert n. induction outs1 as [|o outs1 IH]; intros n.
  - simpl. now rewrite Nat.add_0_r.
  - simpl app. rewrite !view_from_shift, IH, <- app_assoc. simpl length.
    now replace (S n + length outs1)%nat with (n + S (length outs1))%nat by lia.
Qed.

Lemma lookup_map {A B} (f : A -> B) (l : list A) (i : nat) :
  map f l !! i = f <$> l !! i.
Proof. exact (list_lookup_fmap f l i). Qed.

Lemma elem_of_map {A B} (f : A -> B) (l : list A) (x : A) :
  x ∈ l -> f x ∈ map f l.
Proof. exact (list_elem_of_fmap_2 f l x). Qed.

(** X14: A recipient finds the output again.  With keys that obey the viewing
    law, after [AddScriptOutput] the last output that [ViewGhostKey] returns
    for a recipient's private view key holds, at the recipient's place among
    the recipients, the recipient's public spend key; the outputs viewed
    before it are those of the transaction as it was. *)
Theorem recipient_views_spend_key tx tx' recipients (s : Script)
    (amount : Integer) (seed : list byte) (acc : Address) (p : nat) :
  (forall (r v S_ : Key) (i : Z),
     ViewGhostOutputKey (DeriveGhostPublicKey r (Public v) S_ i) v (Public r) i
     = S_) ->
  AddScriptOutput recipients s amount seed tx = (Ok tt, tx') ->
  recipients !! p = Some acc ->
  PublicViewKey acc = Public (PrivateViewKey acc) ->
  exists o : Output,
    ViewGhostKey (PrivateViewKey acc) tx'
      = (Ok (view_outputs (PrivateViewKey acc) (Outputs tx) ++ [o]), tx') /\
    Keys o !! p = Some (PublicSpendKey acc).
Proof.
  intros Hlaw Hadd Hp Hv. unfold AddScriptOutput in Hadd.
  rewrite AddOutputWithType_output in Hadd. injection Hadd as <-.
  unfold ViewGhostKey, bind, get, ret. simpl Outputs.
  rewrite (view_loop_from (PrivateViewKey acc) 0 _ []). simpl app.
  rewrite view_from_app, Nat.add_0_l. fold (view_outputs (PrivateViewKey acc) (Outputs tx)).
  rewrite view_from_shift.
  assert (Ht : Type_ (output_at (len (Outputs tx)) OutputTypeScript recipients
                        s amount seed) = OutputTypeScript)
    by now destruct recipients.
  destruct (decide (Type_ _ = OutputTypeScript)) as [_|]; [|contradiction].
  eexists. split; [reflexivity|].
  destruct recipients as [|a0 rest]; [discriminate|].
  unfold view_copy, output_at. cbn [Keys Mask].
  rewrite !lookup_map, Hp. simpl.
  f_equal. rewrite Hv. apply Hlaw.
Qed.

Lemma recipients_own (ot : Z) recipients (s : Script) (amount : Integer)
    (seed : list byte) (pos : Z) (conv : Z -> Z) accounts :
  (forall (r v sp : Key) (i : Z),
     Public (DeriveGhostPrivateKey (Public r) v sp i)
     = DeriveGhostPublicKey r (Public v) (Public sp) i) ->
  Forall (fun a => a ∈ recipients /\ well_formed a) accounts ->
  Forall (owns (keys_filter conv 0
                  (Keys (output_at pos ot recipients s amount seed)) ∅)
            (Mask (output_at pos ot recipients s amount seed)) pos) accounts.
Proof.
  intros Hlaw Hacc. eapply Forall_impl; [exact Hacc|].
  intros a [Ha [Hv Hs]]. unfold owns, ghost_private.
  destruct recipients as [|a0 rest]; [inversion Ha|].
  unfold output_at. cbn [Keys Mask].
  rewrite Hlaw, <- Hv, <- Hs.
  apply keys_filter_member.
  apply (elem_of_map
           (fun a1 => DeriveGhostPublicKey (NewKeyFromSeed seed)
                        (PublicViewKey a1) (PublicSpendKey a1) pos)).
  exact Ha.
Qed.

(** X15: A recipient can spend the output.  With keys that obey the ghost-key
    law, for the output that [AddOutputWithType] has put last, [SignUTXO]
    given its keys, mask and position succeeds for every non-empty list of
    well-formed accounts taken from the recipients; and so does [SignInput]
    on an ordinary input with the index of that position when the reader
    returns those keys and that mask. *)
Theorem recipients_can_sign tx tx' (ot : Z) recipients (s : Script)
    (amount : Integer) (seed : list byte) (out : Output) accounts
    (reader : R) (index : Z) (in_ : Input) signed :
  (forall (r v sp : Key) (i : Z),
     Public (DeriveGhostPrivateKey (Public r) v sp i)
     = DeriveGhostPublicKey r (Public v) (Public sp) i) ->
  AddOutputWithType ot recipients s amount seed tx = (Ok tt, tx') ->
  last (Outputs tx') = Some out ->
  accounts <> [] ->
  Forall (fun a => a ∈ recipients /\ well_formed a) accounts ->
  (exists sigs : gmap Z Signature,
     SignUTXO {| UTXO_Keys := Keys out; UTXO_Mask := Mask out;
                 UTXO_Index := len (Outputs tx) |} accounts signed
     = (Ok tt, append_sigs sigs signed))
  /\
  (0 <= index ->
   Inputs (Transaction_ signed) !! Z.to_nat index = Some in_ ->
   Deposit in_ = None -> Mint in_ = None ->
   Index in_ = len (Outputs tx) ->
   ReadUTXOKeys reader (Hash_ in_) (Index in_)
     = inr (Some {| UK_Mask := Mask out; UK_Keys := Keys out |}) ->
   exists sigs : gmap Z Signature,
     SignInput reader index accounts signed = (Ok tt, append_sigs sigs signed)).
Proof.
  intros Hlaw Hadd Hlast Hne Hacc.
  rewrite AddOutputWithType_output in Hadd. injection Hadd as <-.
  simpl in Hlast. rewrite last_snoc in Hlast. injection Hlast as <-.
  pose proof (recipients_own ot recipients s amount seed (len (Outputs tx))
                uint16 accounts Hlaw Hacc) as Hown.
  destruct (sign_accounts_all_own _ _ _ (PayloadHash signed) accounts ∅ Hown)
    as (sigs & Hs & _).
  destruct accounts as [|acc0 rest]; [congruence|].
  assert (HU : SignUTXO
                 {| UTXO_Keys := Keys (output_at (len (Outputs tx)) ot
                                         recipients s amount seed);
                    UTXO_Mask := Mask (output_at (len (Outputs tx)) ot
                                         recipients s amount seed);
                    UTXO_Index := len (Outputs tx) |} (acc0 :: rest) signed
               = (Ok tt, append_sigs sigs signed)).
  { unfold SignUTXO, bind, get, lift, modify.
    rewrite len_cons_nonzero. simpl UTXO_Keys. simpl UTXO_Mask.
    simpl UTXO_Index. now rewrite Hs. }
  split; [now exists sigs|].
  intros Hi Hl Hd Hm Hidx Hrd. exists sigs.
  rewrite (SignInput_at reader index acc0 rest in_ signed Hi Hl), Hd, Hm, Hrd.
  simpl UK_Keys. simpl UK_Mask. rewrite Hidx. exact HU.
Qed.

End GhostKeys.

(** * Further properties of the aggregate signer *)

Section AggregateMore.
Context {ET : ExternTypes} {CR : Crypto} {R : Type} {RD : UTXOKeysReader R}.
Implicit Types (signed : SignedTransaction) (st : scan)
  (utxo : UTXOKeys) (accounts : list (list Address)) (reader : R).

(** X16: [AggregateSign] writes one field.  Whatever it returns, the transaction
    and [SignaturesMap] are as before; unless it returns [nil] the whole
    receiver is as before; and when it returns [nil] an aggregated
    signature is stored, in place of any there was. *)
Theorem AggregateSign_frame reader accounts (seed : list byte) signed :
  Transaction_ (snd (AggregateSign reader accounts seed signed))
    = Transaction_ signed /\
  SignaturesMap (snd (AggregateSign reader accounts seed signed))
    = SignaturesMap signed /\
  (fst (AggregateSign reader accounts seed signed) <> Ok tt ->
   snd (AggregateSign reader accounts seed signed) = signed) /\
  (fst (AggregateSign reader accounts seed signed) = Ok tt ->
   is_Some (AggregatedSignature (snd (AggregateSign reader accounts seed signed)))).
Proof.
  unfold AggregateSign, bind, get, lift, modify.
  destruct (aggregate _ _ _ _) as [as_| |]; simpl; repeat split;
    try congruence; eauto.
Qed.

(** *** Accounts beyond the inputs *)

Lemma scan_inputs_extra reader accounts (extra : list (list Address))
    (n : nat) (ins : list Input) st :
  (n + length ins <= length accounts)%nat ->
  scan_inputs reader (accounts ++ extra) n ins st =
  scan_inputs reader accounts n ins st.
Proof.
  revert n st. induction ins as [|in_ ins IH]; intros n st Hn; [reflexivity|].
  simpl in *. destruct (ReadUTXOKeys _ _ _) as [e|[utxo|]]; try reflexivity.
  rewrite lookup_app_l by lia.
  destruct (accounts !! n) as [accs|]; [|reflexivity].
  destruct (scan_accounts _ _ _ _ _) as [st'| |]; simpl; try reflexivity.
  apply IH. lia.
Qed.

(** X17: [AggregateSign] reads [accounts] at the positions of the inputs only:
    entries after them change nothing. *)
Theorem AggregateSign_ignores_extra_accounts reader accounts
    (extra : list (list Address)) (seed : list byte) signed :
  (length (Inputs (Transaction_ signed)) <= length accounts)%nat ->
  AggregateSign reader (accounts ++ extra) seed signed =
  AggregateSign reader accounts seed signed.
Proof.
  intros Hn. unfold AggregateSign, bind, get, lift, aggregate.
  now rewrite scan_inputs_extra by lia.
Qed.

(** *** No signer at all *)

Lemma scan_inputs_no_accounts reader accounts (n : nat) (ins : list Input) st :
  Forall (fun in_ : Input =>
            exists utxo, ReadUTXOKeys reader (Hash_ in_) (Index in_)
                         = inr (Some utxo)) ins ->
  (forall k : nat, (k < length ins)%nat -> accounts !! (n + k)%nat = Some []) ->
  scan_inputs reader accounts n ins st =
  Ok {| signers := signers st; privKeys := privKeys st;
        pubKeys := pubKeys st ++ all_keys reader ins |}.
Proof.
  intros H. revert n st.
  induction H as [|in_ ins [utxo Hu] _ IH]; intros n st Hacc; simpl.
  - rewrite app_nil_r. now destruct st.
  - rewrite Hu. rewrite <- (Nat.add_0_r n) at 1.
    rewrite (Hacc 0%nat) by (simpl; lia). simpl.
    rewrite IH; [simpl; now rewrite <- app_assoc|].
    intros k Hk. replace (S n + k)%nat with (n + S k)%nat by lia.
    apply Hacc. simpl. lia.
Qed.

(** X18: [AggregateSign] does not ask for a signer.  When the reader finds every
    input and the entry of [accounts] for every input is empty (no inputs
    at all included), the call stores an aggregated signature with no
    signers, made of the identity point and the zero scalar, whatever the
    seed -- unless the challenge scalar is refused, which is returned as an
    error. *)
Theorem AggregateSign_no_signers reader accounts (seed : list byte) signed :
  Forall (fun in_ : Input =>
            exists utxo, ReadUTXOKeys reader (Hash_ in_) (Index in_)
                         = inr (Some utxo)) (Inputs (Transaction_ signed)) ->
  (forall k : nat, (k < length (Inputs (Transaction_ signed)))%nat ->
                   accounts !! k = Some []) ->
  AggregateSign reader accounts seed signed =
  match SetUniformBytes
          (Sha512 (PointBytes NewIdentityPoint ++ PointBytes NewIdentityPoint
                   ++ PayloadHash signed)) with
  | Some _ =>
      (Ok tt,
       set_aggregated
         {| Signers := [];
            Signature_ := signature_bytes (PointBytes NewIdentityPoint)
                            (ScalarBytes NewScalar) |} signed)
  | None => (Err ErrInvalidScalar, signed)
  end.
Proof.
  intros Hrd Hacc. unfold AggregateSign, bind, get, lift, modify, aggregate.
  rewrite (scan_inputs_no_accounts reader accounts 0 _ scan0 Hrd Hacc).
  simpl. now destruct (SetUniformBytes _).
Qed.

(** *** The signers and the keys they point at *)

Lemma signs_for_app (pubs more : list Key) (m : Z) (priv : Key) :
  signs_for pubs m priv -> signs_for (pubs ++ more) m priv.
Proof.
  intros (Hm & k & Hk & Hs). split; [assumption|]. exists k.
  split; [|assumption]. now apply lookup_app_l_Some.
Qed.

Lemma scan_accounts_signs utxo (in_ : Input) (accs : list Address) st st' :
  scan_accounts utxo in_ (keys_filter (fun i => i) 0 (UK_Keys utxo) ∅) accs st
    = Ok st' ->
  pubKeys st' = pubKeys st /\
  privKeys st' = privKeys st
                 ++ map (ghost_private (UK_Mask utxo) (Index in_)) accs /\
  exists ms : list Z,
    signers st' = signers st ++ ms /\
    Forall2 (signs_for (pubKeys st ++ UK_Keys utxo)) ms
      (map (ghost_private (UK_Mask utxo) (Index in_)) accs).
Proof.
  revert st st'. induction accs as [|acc accs IH]; intros st st'; simpl.
  - intros [= <-]. rewrite app_nil_r. repeat split. exists [].
    rewrite app_nil_r. split; [reflexivity | constructor].
  - fold (ghost_private (UK_Mask utxo) (Index in_) acc).
    destruct (keys_filter _ _ _ _ !! _) as [i|] eqn:E; [|discriminate].
    apply (keys_filter_sound (fun i => i)) in E as (Hi & k & Hk & Hs);
      [|reflexivity].
    assert (Hsf : signs_for (pubKeys st ++ UK_Keys utxo)
                    (len (pubKeys st) + i)
                    (ghost_private (UK_Mask utxo) (Index in_) acc)).
    { split; [unfold len; lia|]. exists k. split; [|assumption].
      rewrite lookup_app_r by (unfold len; lia).
      rewrite <- Hk. f_equal. unfold len. lia. }
    assert (Hstep : forall st1,
      scan_accounts utxo in_ (keys_filter (fun i => i) 0 (UK_Keys utxo) ∅) accs
        {| signers := signers st ++ [len (pubKeys st) + i];
           privKeys := privKeys st
                       ++ [ghost_private (UK_Mask utxo) (Index in_) acc];
           pubKeys := pubKeys st |} = Ok st1 ->
      pubKeys st1 = pubKeys st /\
      privKeys st1 = privKeys st
        ++ ghost_private (UK_Mask utxo) (Index in_) acc
           :: map (ghost_private (UK_Mask utxo) (Index in_)) accs /\
      exists ms : list Z,
        signers st1 = signers st ++ ms /\
        Forall2 (signs_for (pubKeys st ++ UK_Keys utxo)) ms
          (ghost_private (UK_Mask utxo) (Index in_) acc
           :: map (ghost_private (UK_Mask utxo) (Index in_)) accs)).
    { intros st1 H1. apply IH in H1 as (Hp & Hq & ms & Hms & Hf).
      simpl in *. rewrite Hp, Hq, Hms, <- !app_assoc. repeat split.
      exists ((len (pubKeys st) + i) :: ms). split; [reflexivity|].
      now constructor. }
    destruct (last (signers st)) as [prev|]; [|apply Hstep].
    destruct (_ <=? prev); [discriminate | apply Hstep].
Qed.

Lemma scan_inputs_signs reader accounts (n : nat) (ins : list Input) st st' :
  scan_inputs reader accounts n ins st = Ok st' ->
  pubKeys st' = pubKeys st ++ all_keys reader ins /\
  privKeys st' = privKeys st ++ all_privs reader accounts n ins /\
  exists ms : list Z,
    signers st' = signers st ++ ms /\
    Forall2 (signs_for (pubKeys st')) ms (all_privs reader accounts n ins).
Proof.
  revert n st. induction ins as [|in_ ins IH]; intros n st; simpl.
  - intros [= <-]. rewrite !app_nil_r. repeat split. exists [].
    rewrite app_nil_r. split; [reflexivity | constructor].
  - destruct (ReadUTXOKeys _ _ _) as [e|[utxo|]]; try discriminate.
    destruct (accounts !! n) as [accs|]; [|discriminate].
    destruct (scan_accounts _ _ _ _ _) as [st1| |] eqn:E; try discriminate.
    apply scan_accounts_signs in E as (Hp1 & Hq1 & ms1 & Hms1 & Hf1).
    simpl. intros H. apply IH in H as (Hp & Hq & ms & Hms & Hf).
    simpl in *. rewrite Hp1 in Hp. rewrite Hq1 in Hq. rewrite Hms1 in Hms.
    rewrite <- !app_assoc in *. repeat split; try assumption.
    exists (ms1 ++ ms). split; [assumption|].
    apply Forall2_app; [|assumption].
    rewrite Hp, app_assoc.
    eapply Forall2_impl; [exact Hf1|]. intros m priv. apply signs_for_app.
Qed.

(** X19: The signers of a successful [AggregateSign] are in step with the
    accounts: there is one signer for each account given for an input, in
    order, and the signer's index points, in the list of the keys of all
    the inputs' outputs, at a key with the string of the public key of
    that account's ghost private key. *)
Theorem AggregateSign_signers_match reader accounts (seed : list byte)
    signed signed' :
  AggregateSign reader accounts seed signed = (Ok tt, signed') ->
  exists as_ : AggregatedSignature_,
    AggregatedSignature signed' = Some as_ /\
    Forall2 (signs_for (all_keys reader (Inputs (Transaction_ signed))))
      (Signers as_)
      (all_privs reader accounts 0 (Inputs (Transaction_ signed))).
Proof.
  intros H. apply AggregateSign_Ok in H as (as_ & sc & _ & -> & Hsc & Hsig).
  exists as_. split; [reflexivity|]. rewrite Hsig.
  apply scan_inputs_signs in Hsc as (Hp & _ & ms & Hms & Hf).
  simpl in *. now rewrite Hms, <- Hp.
Qed.

(** *** The commitment *)

Lemma nonce_loop_commitment (seed : list byte) (pubs : list Key) (ms : list Z)
    (nc nc' : nonces) :
  nonce_loop seed pubs ms nc = Ok nc' ->
  commitment seed ms (sumP nc) = Some (sumP nc') /\
  randoms nc' = randoms nc ++ map (signer_nonce seed) ms.
Proof.
  revert nc. induction ms as [|m ms IH]; intros nc; simpl.
  - intros [= <-]. now rewrite app_nil_r.
  - fold (signer_nonce seed m).
    destruct (PointSetBytes (Public (signer_nonce seed m))) as [p|];
      [|discriminate].
    destruct (at_index pubs m) as [pub| |]; simpl; try discriminate.
    destruct (PointSetBytes pub) as [a|]; [|discriminate].
    intros H. apply IH in H as [Hc Hr]. simpl in *.
    now rewrite Hc, Hr, <- app_assoc.
Qed.

Lemma take_signature_bytes (P S_ : list byte) :
  take 32 (signature_bytes P S_) = copy (replicate 32%nat x00) P.
Proof.
  unfold signature_bytes.
  rewrite take_app_length'; [reflexivity|]. now rewrite length_copy.
Qed.

(** X20: The first half of the aggregated signature comes from the seed and the
    signers alone.  Two successful calls with the same seed that store the
    same signers store the same first 32 signature bytes, whatever the
    transactions, their payload hashes, the readers and the accounts. *)
Theorem AggregateSign_commitment_from_seed (r1 r2 : R)
    (accounts1 accounts2 : list (list Address)) (seed : list byte)
    (s1 s2 s1' s2' : SignedTransaction) (a1 a2 : AggregatedSignature_) :
  AggregateSign r1 accounts1 seed s1 = (Ok tt, s1') ->
  AggregateSign r2 accounts2 seed s2 = (Ok tt, s2') ->
  AggregatedSignature s1' = Some a1 ->
  AggregatedSignature s2' = Some a2 ->
  Signers a1 = Signers a2 ->
  take 32 (Signature_ a1) = take 32 (Signature_ a2).
Proof.
  assert (Hone : forall (r : R) accounts s s' a,
            AggregateSign r accounts seed s = (Ok tt, s') ->
            AggregatedSignature s' = Some a ->
            exists P, commitment seed (Signers a) NewIdentityPoint = Some P /\
                      take 32 (Signature_ a)
                      = copy (replicate 32%nat x00) (PointBytes P)).
  { intros r accounts s s' a H Ha.
    apply AggregateSign_Ok in H as (as_ & sc & E & -> & _ & _).
    simpl in Ha. injection Ha as ->. revert E. unfold aggregate.
    destruct (scan_inputs _ _ _ _ _) as [sc'| |]; try discriminate. simpl.
    destruct (nonce_loop _ _ _ _) as [nc| |] eqn:En; try discriminate. simpl.
    destruct (SetUniformBytes _) as [x|]; [|discriminate].
    destruct (sum_loop _ _ _ _ _) as [S_| |]; try discriminate. simpl.
    intros [= <-]. simpl. exists (sumP nc).
    apply nonce_loop_commitment in En as [Hc _].
    split; [exact Hc | apply take_signature_bytes]. }
  intros H1 H2 Ha1 Ha2 Hs.
  destruct (Hone _ _ _ _ _ H1 Ha1) as (P1 & Hc1 & ->).
  destruct (Hone _ _ _ _ _ H2 Ha2) as (P2 & Hc2 & ->).
  rewrite Hs, Hc2 in Hc1. now injection Hc1 as ->.
Qed.

End AggregateMore.

(** * Package [clock] *)

Section ClockFacts.
Context {TL : TimeLib}.
Implicit Types (st : clock) (now : Time).

(** X21: Outside a test build (a build version without the marker) the mock is
    locked: [Reset] and [MockDiff] panic and leave the offset as it is, and
    [Now] and [NowUnixNano] return the system clock, whatever the offset
    holds. *)
Theorem clock_locked_outside_tests (BuildVersion : string) now (d : Z) st :
  inTest BuildVersion = false ->
  (exists msg, Reset BuildVersion st = (Panic (PanicString msg), st)) /\
  (exists msg, MockDiff BuildVersion now d st = (Panic (PanicString msg), st)) /\
  Now BuildVersion now st = (Ok now, st) /\
  NowUnixNano BuildVersion now st = (Ok (uint64 (UnixNano now)), st).
Proof.
  intros H. unfold NowUnixNano, bind, Reset, MockDiff, Now, lift, ret.
  rewrite H. simpl. repeat split; eauto.
Qed.

Lemma int64_add (x y : Z) : int64 (int64 x + y) = int64 (x + y).
Proof.
  unfold int64.
  replace (((x + 2 ^ 63) mod 2 ^ 64 - 2 ^ 63 + y + 2 ^ 63))
    with ((x + 2 ^ 63) mod 2 ^ 64 + y) by lia.
  rewrite Z.add_mod_idemp_l by lia.
  f_equal. f_equal. lia.
Qed.

Lemma int64_range (z : Z) : - 2 ^ 63 <= int64 z < 2 ^ 63.
Proof.
  unfold int64. pose proof (Z.mod_pos_bound (z + 2 ^ 63) (2 ^ 64)). lia.
Qed.

Lemma int64_small (z : Z) : - 2 ^ 63 <= z < 2 ^ 63 -> int64 z = z.
Proof. intros H. unfold int64. rewrite Z.mod_small; lia. Qed.

Lemma mock_all_state (BuildVersion : string) (calls : list (Time * Z)) st :
  inTest BuildVersion = true ->
  - 2 ^ 63 <= mockDiff st < 2 ^ 63 ->
  mockDiff (mock_all BuildVersion calls st)
  = int64 (mockDiff st + sum_Z (map snd calls)) /\
  length (printed (mock_all BuildVersion calls st))
  = (length (printed st) + length calls)%nat.
Proof.
  intros H. revert st. induction calls as [|[t d] calls IH]; intros st Hr.
  - cbn -[int64 Z.pow]. rewrite Z.add_0_r, int64_small by assumption.
    split; [reflexivity | lia].
  - unfold mock_all in *. simpl fold_left.
    destruct (IH (snd (MockDiff BuildVersion t d st))) as [IH1 IH2].
    { unfold MockDiff. rewrite H. cbn -[int64 Z.pow]. apply int64_range. }
    rewrite IH1, IH2. unfold MockDiff. rewrite H. cbn -[int64 Z.pow].
    rewrite length_app, int64_add. simpl length. split; [|lia].
    f_equal. unfold sum_Z. cbn [map fold_right snd]. lia.
Qed.

(** X22: In a test build the offsets add up.  After any calls of [MockDiff] the
    offset is the old one plus the sum of the durations, wrapped to 64
    bits -- so the order of the calls does not matter -- each call has
    printed one line, and [Now] returns the system clock moved by that
    offset; after [Reset] the offset is zero again. *)
Theorem MockDiff_accumulates (BuildVersion : string)
    (calls : list (Time * Z)) now st :
  inTest BuildVersion = true ->
  - 2 ^ 63 <= mockDiff st < 2 ^ 63 ->
  mockDiff (mock_all BuildVersion calls st)
    = int64 (mockDiff st + sum_Z (map snd calls)) /\
  length (printed (mock_all BuildVersion calls st))
    = (length (printed st) + length calls)%nat /\
  fst (Now BuildVersion now (mock_all BuildVersion calls st))
    = Ok (TimeAdd now (int64 (mockDiff st + sum_Z (map snd calls)))) /\
  fst (Now BuildVersion now
         (snd (Reset BuildVersion (mock_all BuildVersion calls st))))
    = Ok (TimeAdd now 0).
Proof.
  intros H Hr. destruct (mock_all_state BuildVersion calls st H Hr) as [Hm Hp].
  split; [exact Hm|]. split; [exact Hp|].
  unfold Now, Reset, bind, get, ret, modify. rewrite H.
  cbn -[mock_all int64 sum_Z Z.pow].
  split; [now rewrite Hm | reflexivity].
Qed.

End ClockFacts.

(** * The snapshots of the mint tests *)

Lemma work_name_inj (round timestamp : Z) (i j : nat) :
  work_name round timestamp i = work_name round timestamp j -> i = j.
Proof.
  unfold work_name. intros H.
  apply (f_equal string_of_list_byte) in H.
  rewrite !string_of_list_byte_of_string in H.
  do 3 apply String.app_inj in H.
  apply pretty_Z_inj in H. lia.
Qed.

Lemma fill_snapshots_from (NewHash : list byte -> Hash) (signers : list Hash)
    (round timestamp : Z) (n k : nat) (done : list (option SnapshotWork)) :
  length done = k ->
  fill_snapshots NewHash signers round timestamp (seq k n)
    (done ++ replicate n None)
  = done ++ map (fun i => Some {| SW_Timestamp := timestamp;
                                  SW_Hash := NewHash (work_name round timestamp i);
                                  SW_Signers := signers |}) (seq k n).
Proof.
  revert k done. induction n as [|n IH]; intros k done Hk; [reflexivity|].
  simpl. rewrite insert_app_r_alt by lia.
  replace (k - length done)%nat with 0%nat by lia. simpl.
  rewrite (cons_middle _ done), app_assoc.
  rewrite IH by (rewrite length_app; simpl; lia).
  now rewrite <- app_assoc.
Qed.

(** X23: [testBuildMintSnapshots] returns 100 snapshots, none of them nil, each
    with the given timestamp and signers and with the hash of a name; the
    100 names hashed are pairwise different. *)
Theorem testBuildMintSnapshots_names (NewHash : list byte -> Hash)
    (signers : list Hash) (round timestamp : Z) :
  exists names : list (list byte),
    length names = 100%nat /\
    NoDup names /\
    testBuildMintSnapshots NewHash signers round timestamp
    = map (fun name => Some {| SW_Timestamp := timestamp;
                               SW_Hash := NewHash name;
                               SW_Signers := signers |}) names.
Proof.
  exists (map (work_name round timestamp) (seq 0 100)).
  split; [now rewrite length_map, length_seq|]. split.
  - refine (NoDup_fmap_2_strong (work_name round timestamp) (seq 0 100) _ _).
    + intros i j _ _. apply work_name_inj.
    + apply NoDup_seq.
  - unfold testBuildMintSnapshots. rewrite length_replicate.
    etransitivity;
      [exact (fill_snapshots_from NewHash signers round timestamp 100 0 []
                eq_refl)|].
    rewrite app_nil_l. now rewrite map_map.
Qed.

(** * The further properties on the sample values *)

Lemma TransactionType_genesis_input_witness :
  TransactionType
    (signed_of [plain [x01] 0; genesis_input; mint_input]
       [output_of_type OutputTypeScript []])
  = TransactionTypeUnknown.
Proof.
  apply (TransactionType_genesis_input
           (signed_of [plain [x01] 0; genesis_input; mint_input]
              [output_of_type OutputTypeScript []])
           [plain [x01] 0] [mint_input] genesis_input).
  - reflexivity.
  - repeat constructor.
  - reflexivity.
  - reflexivity.
  - simpl. discriminate.
Defined.

Lemma keys_filter_uint16_exact_witness :
  0 <= 2 < len [[x0a]; [x0b]; [x0a]] /\
  exists k : Key,
    [[x0a]; [x0b]; [x0a]] !! Z.to_nat 2 = Some k /\
    KeyString (Crypto := sampleC) k = KeyString (Crypto := sampleC) [x0a].
Proof.
  apply (keys_filter_uint16_exact (CR := sampleC) [[x0a]; [x0b]; [x0a]]
           (KeyString (Crypto := sampleC) [x0a]) 2).
  - vm_compute. discriminate.
  - vm_compute. reflexivity.
Defined.

Lemma SignUTXO_complete_witness :
  exists sigs : gmap Z Signature,
    SignUTXO (CR := sampleC) sample_utxo [account [x0b]; account [x0a]] two_inputs
    = (Ok tt, append_sigs sigs two_inputs) /\
    is_Some (sigs !! 0) /\ is_Some (sigs !! 1) /\ sigs !! 2 = None.
Proof.
  destruct (SignUTXO_complete (CR := sampleC) sample_utxo
              [account [x0b]; account [x0a]] two_inputs)
    as (sigs & Hs & Hall & Hfrom).
  - discriminate.
  - repeat constructor; eexists; reflexivity.
  - exists sigs. split; [exact Hs|].
    destruct (Hall (account [x0a])) as (i & Hi & H0); [right; left|].
    destruct (Hall (account [x0b])) as (j & Hj & H1); [left|].
    vm_compute in Hi. vm_compute in Hj.
    injection Hi as <-. injection Hj as <-.
    split; [exact H0|]. split; [exact H1|].
    destruct (sigs !! 2) as [sg|] eqn:E; [|reflexivity].
    destruct (Hfrom 2 sg E) as (acc & Hacc & Hk & _).
    apply elem_of_cons in Hacc as [->|Hacc];
      [vm_compute in Hk; discriminate|].
    apply elem_of_cons in Hacc as [->|Hacc];
      [vm_compute in Hk; discriminate|].
    inversion Hacc.
Defined.

Lemma SignUTXO_first_missing_witness :
  SignUTXO (CR := sampleC) sample_utxo
    ([account [x0a]] ++ account [x0c] :: [account [x0b]]) two_inputs
  = (Err (ErrInvalidKey (account [x0c])), two_inputs).
Proof.
  apply (SignUTXO_first_missing (CR := sampleC) sample_utxo
           [account [x0a]] [account [x0b]] (account [x0c]) two_inputs).
  - repeat constructor. eexists. reflexivity.
  - intros [i H]. vm_compute in H. discriminate.
Defined.

Lemma SignInput_deposit_or_mint_witness :
  SignInput (CR := sampleC) sample_reader 0 [account [x0a]; account [x0b]]
    (signed_of [deposit_input; plain [x01] 0] [])
  = (Err (ErrInvalidInputsCount 2), signed_of [deposit_input; plain [x01] 0] []).
Proof.
  destruct (SignInput_deposit_or_mint (CR := sampleC) sample_reader 0
              (account [x0a]) [account [x0b]] deposit_input
              (signed_of [deposit_input; plain [x01] 0] [])) as [_ H].
  - lia.
  - reflexivity.
  - left. simpl. discriminate.
  - apply H. simpl. lia.
Defined.

Lemma SignInput_reference_witness :
  SignInput (CR := sampleC) sample_reader 1 [account [x0c]] two_inputs
  = SignUTXO (CR := sampleC)
      {| UTXO_Keys := [[x0c]]; UTXO_Mask := [x07]; UTXO_Index := 0 |}
      [account [x0c]] two_inputs.
Proof.
  rewrite (SignInput_reference (CR := sampleC) sample_reader 1 [account [x0c]]
             (plain [x02] 0) two_inputs).
  - reflexivity.
  - discriminate.
  - lia.
  - reflexivity.
  - reflexivity.
  - reflexivity.
Defined.

Lemma recipient_views_spend_key_witness :
  exists o : Output,
    ViewGhostKey (CR := lawfulC) [x76]
      (snd (AddScriptOutput (CR := lawfulC) recipients_ab [] 5 [x73] (tx_of [] [])))
    = (Ok ([] ++ [o]),
       snd (AddScriptOutput (CR := lawfulC) recipients_ab [] 5 [x73] (tx_of [] [])))
    /\ Keys o !! 1%nat = Some [x0b].
Proof.
  apply (recipient_views_spend_key (CR := lawfulC) (tx_of [] [])
           (snd (AddScriptOutput (CR := lawfulC) recipients_ab [] 5 [x73]
                   (tx_of [] [])))
           recipients_ab [] 5 [x73] (account [x0b]) 1).
  - intros r v S_ i. reflexivity.
  - reflexivity.
  - reflexivity.
  - reflexivity.
Defined.

Lemma recipients_can_sign_witness :
  (exists sigs : gmap Z Signature,
     SignUTXO (CR := lawfulC)
       {| UTXO_Keys := Keys first_output; UTXO_Mask := Mask first_output;
          UTXO_Index := 0 |} [account [x0b]] two_inputs
     = (Ok tt, append_sigs sigs two_inputs))
  /\
  (exists sigs : gmap Z Signature,
     SignInput (CR := lawfulC) first_output_reader 0 [account [x0b]] two_inputs
     = (Ok tt, append_sigs sigs two_inputs)).
Proof.
  destruct (recipients_can_sign (CR := lawfulC) (tx_of [] [])
              (snd (AddOutputWithType (CR := lawfulC) OutputTypeScript
                      recipients_ab [] 5 [x73] (tx_of [] [])))
              OutputTypeScript recipients_ab [] 5 [x73] first_output
              [account [x0b]] first_output_reader 0 (plain [x01] 0) two_inputs)
    as [H1 H2].
  - intros r v sp i. reflexivity.
  - reflexivity.
  - reflexivity.
  - discriminate.
  - repeat constructor.
  - split; [exact H1|]. apply H2; try reflexivity; lia.
Defined.

Lemma AggregateSign_ignores_extra_accounts_witness :
  AggregateSign (CR := sampleC) sample_reader
    (in_order ++ [[account [x0a]]]) [x73] two_inputs
  = AggregateSign (CR := sampleC) sample_reader in_order [x73] two_inputs.
Proof.
  apply (AggregateSign_ignores_extra_accounts (CR := sampleC) sample_reader
           in_order [[account [x0a]]] [x73] two_inputs).
  simpl. lia.
Defined.

Lemma AggregateSign_no_signers_witness :
  AggregatedSignature
    (snd (AggregateSign (CR := sampleC) sample_reader [[]; []] [x73] two_inputs))
  = Some {| Signers := [];
            Signature_ := signature_bytes (replicate 32%nat x00)
                            (replicate 32%nat x00) |}.
Proof.
  rewrite (AggregateSign_no_signers (CR := sampleC) sample_reader [[]; []]
             [x73] two_inputs).
  - reflexivity.
  - repeat constructor; eexists; reflexivity.
  - intros [|[|k]] Hk; try reflexivity. simpl in Hk. lia.
Defined.

Lemma AggregateSign_signers_match_witness :
  exists as_ : AggregatedSignature_,
    AggregatedSignature
      (snd (AggregateSign (CR := sampleC) sample_reader in_order [x73] two_inputs))
    = Some as_ /\
    Forall2 (signs_for (CR := sampleC) [[x0a]; [x0b]; [x0c]]) (Signers as_)
      [[x0a]; [x0b]; [x0c]].
Proof.
  destruct (AggregateSign_signers_match (CR := sampleC) sample_reader in_order
              [x73] two_inputs
              (snd (AggregateSign (CR := sampleC) sample_reader in_order [x73]
                      two_inputs)))
    as (as_ & Ha & Hf).
  - vm_compute. reflexivity.
  - exists as_. split; [exact Ha | exact Hf].
Defined.

Lemma AggregateSign_commitment_from_seed_witness :
  exists a1 a2 : AggregatedSignature_,
    AggregatedSignature
      (snd (AggregateSign (CR := sampleC) sample_reader in_order [x73] two_inputs))
    = Some a1 /\
    AggregatedSignature
      (snd (AggregateSign (CR := sampleC) other_reader in_order [x73]
              two_inputs_other))
    = Some a2 /\
    PayloadHash (Crypto := sampleC) two_inputs
      <> PayloadHash (Crypto := sampleC) two_inputs_other /\
    take 32 (Signature_ a1) = take 32 (Signature_ a2).
Proof.
  eexists. eexists. split; [reflexivity|]. split; [reflexivity|].
  split; [discriminate|].
  eapply (AggregateSign_commitment_from_seed (CR := sampleC)
            sample_reader other_reader in_order in_order [x73]
            two_inputs two_inputs_other).
  - vm_compute. reflexivity.
  - vm_compute. reflexivity.
  - reflexivity.
  - reflexivity.
  - reflexivity.
Defined.

Lemma clock_locked_outside_tests_witness :
  Now (TL := nanoseconds) "v0.18.2" 1000
    {| mockDiff := 77; printed := [] |}
  = (Ok 1000, {| mockDiff := 77; printed := [] |}).
Proof.
  apply (clock_locked_outside_tests (TL := nanoseconds) "v0.18.2" 1000 5
           {| mockDiff := 77; printed := [] |}).
  reflexivity.
Defined.

Lemma MockDiff_accumulates_witness :
  fst (Now (TL := nanoseconds) "BUILD_VERSION" 1000
         (mock_all (TL := nanoseconds) "BUILD_VERSION" [(100, 5); (200, -3)]
            clock0))
  = Ok 1002.
Proof.
  apply (MockDiff_accumulates (TL := nanoseconds) "BUILD_VERSION"
           [(100, 5); (200, -3)] 1000 clock0).
  - reflexivity.
  - vm_compute. split; [discriminate | reflexivity].
Defined.

Lemma build_type_witness :
  TransactionType
    (promote (build (CR := sampleC) [x61] input_and_script_output))
  = TransactionTypeScript.
Proof.
  apply (build_type (CR := sampleC) [x61] input_and_script_output).
  repeat constructor.
Defined.

Lemma AddScriptOutput_keeps_type_witness :
  AddRandomScriptOutput (CR := sampleC) (replicate 64%nat x2a) recipients_ab [] 5
    (tx_of [] [])
  = AddScriptOutput (CR := sampleC) recipients_ab [] 5 (replicate 64%nat x2a)
      (tx_of [] []).
Proof.
  apply (AddScriptOutput_keeps_type (CR := sampleC) (tx_of [] []) recipients_ab
           [] 5 [] (replicate 64%nat x2a) None []).
  reflexivity.
Defined.

Lemma AggregateSign_frame_witness :
  snd (AggregateSign (CR := sampleC) sample_reader out_of_order [x73] two_inputs)
  = two_inputs.
Proof.
  apply (AggregateSign_frame (CR := sampleC) sample_reader out_of_order [x73]
           two_inputs).
  vm_compute. discriminate.
Defined.
